(** * Firebase JS SDK: storage references, request descriptions,
      browser persistence and database string utilities.

    A shallow embedding of the TypeScript sources:
    - [storage/src/implementation/requestinfo.ts]  (module [Storage])
    - [storage/src/reference.ts]                   (module [Storage])
    - [storage/src/platform/connection.ts]         (module [Storage])
    - [auth-exp/src/core/persistence/browser.ts]   (module [Persistence])
    - [database/src/core/util/util.ts]             (module [Util])

    JavaScript values keep the distinctions the code tests for
    ([undefined], [null], [typeof x === 'number']); functions that may
    throw return a [Completion]; promises are represented by the value
    they settle with.

    Part I holds the definitions, Part II the lemmas and theorems. *)

From Stdlib Require Import ZArith QArith Lia Lqa Ascii.
From stdpp Require Import base option list gmap strings sorting.

Local Open Scope Z_scope.

(* ================================================================== *)
(** * Part I: the embedding                                            *)
(* ================================================================== *)

(** ** JavaScript strings

    [str.length] and [str.substring(start, end)] as the ECMAScript
    standard defines them on integral arguments: both indices are
    clamped to [0, length] and swapped when out of order. *)
Module JsString.

Definition length (s : string) : Z := Z.of_nat (String.length s).

Definition clamp (len i : Z) : Z := Z.max 0 (Z.min i len).

Definition substring (s : string) (indexStart indexEnd : Z) : string :=
  let len := length s in
  let a := clamp len indexStart in
  let b := clamp len indexEnd in
  let lo := Z.min a b in
  let hi := Z.max a b in
  String.substring (Z.to_nat lo) (Z.to_nat (hi - lo)) s.

(** [segs.join('')] *)
Definition join (segs : list string) : string :=
  foldr String.append EmptyString segs.

(** The suffix of [s] that starts at index [n] (a proof device: what is
    left of the string once the first [n] characters are split off). *)
Fixpoint drop (n : nat) (s : string) : string :=
  match n, s with
  | O, _ => s
  | S _, EmptyString => EmptyString
  | S n', String _ s' => drop n' s'
  end.

End JsString.

(** ** JavaScript numbers that hold integers

    [Number(str)] and [String(n)] on decimal integers, and [id++].  A
    double holds every integer up to [2^53] exactly; [2^53 + 1] rounds
    back to [2^53]. *)
Module JsNumber.

Definition isDigit (c : Ascii.ascii) : bool :=
  ((48 <=? Ascii.nat_of_ascii c) && (Ascii.nat_of_ascii c <=? 57))%nat.

Definition digitValue (c : Ascii.ascii) : Z :=
  Z.of_nat (Ascii.nat_of_ascii c) - 48.

Definition digitChar (d : Z) : Ascii.ascii :=
  Ascii.ascii_of_nat (Z.to_nat (48 + d)).

(** The value of a run of decimal digits, most significant first,
    continuing from [acc]. *)
Fixpoint digitsValue (acc : Z) (s : string) : Z :=
  match s with
  | EmptyString => acc
  | String c rest => digitsValue (10 * acc + digitValue c) rest
  end.

(** [Number(str)] for a run of decimal digits with an optional leading
    minus sign. *)
Definition Number (str : string) : Z :=
  match str with
  | String "-"%char rest => - digitsValue 0 rest
  | _ => digitsValue 0 str
  end.

(** The decimal digits of [n >= 0] in front of [acc]; [fuel] bounds
    their number. *)
Fixpoint digitsOf (fuel : nat) (n : Z) (acc : string) : string :=
  match fuel with
  | O => acc
  | S fuel' =>
      let acc' := String (digitChar (n mod 10)) acc in
      if n <? 10 then acc' else digitsOf fuel' (n / 10) acc'
  end.

(** [String(n)] for an integer below [10^21] in size: decimal, a minus
    sign for the negative ones, no leading zeros.  A number has no more
    decimal digits than binary ones. *)
Definition toString (n : Z) : string :=
  let digits m := digitsOf (S (Z.to_nat (Z.log2 m))) m EmptyString in
  if n <? 0 then String "-"%char (digits (- n)) else digits n.

(** [id + 1] on a double that holds a positive integer. *)
Definition increment (id : Z) : Z :=
  if id <? 2 ^ 53 then id + 1 else id.

End JsNumber.

(** ** JavaScript numbers that hold fractions

    A finite double as the rational it stands for.  Comparisons of
    doubles are exact; a sum is exact when the result is itself a
    double, as it is for whole numbers, halves and quarters far below
    [2^53].  [toInteger] is the truncation toward zero that
    [substring] applies to an index. *)
Module JsFraction.

Definition leb (x y : Q) : bool := Qle_bool x y.

Definition ltb (x y : Q) : bool := negb (Qle_bool y x).

Definition toInteger (x : Q) : Z := Z.quot (Qnum x) (Z.pos (Qden x)).

End JsFraction.

(** ** database/src/core/util/util.ts *)
Module Util.

(** The [for (let c = 0; c < len; c += segsize)] loop of
    [splitStringBySize].  The loop test comes first; [fuel] bounds the
    number of iterations, and [None] means the bound was reached with
    the test still true. *)
Fixpoint splitLoop (fuel : nat) (str : string) (segsize len c : Z)
         (dataSegs : list string) : option (list string) :=
  if c <? len then
    match fuel with
    | O => None
    | S fuel' =>
        let seg :=
          if c + segsize >? len
          then JsString.substring str c len
          else JsString.substring str c (c + segsize) in
        splitLoop fuel' str segsize len (c + segsize) (dataSegs ++ [seg])
    end
  else Some dataSegs.

(** [splitStringBySize(str, segsize)] for an integral [segsize].  Every
    iteration with [segsize >= 1] advances [c] by at least one, so
    [str.length] iterations are enough; with [segsize <= 0] and a
    non-empty string the source loop never ends, and the model answers
    [None]. *)
Definition splitStringBySize (str : string) (segsize : Z)
  : option (list string) :=
  let len := JsString.length str in
  if len <=? segsize then Some [str]
  else splitLoop (String.length str) str segsize len 0 [].

(** Every segment but the last is full; the last is at most full. *)
Fixpoint segments_ok (segsize : Z) (segs : list string) : Prop :=
  match segs with
  | [] => True
  | seg :: rest =>
      match rest with
      | [] => JsString.length seg <= segsize
      | _ :: _ => JsString.length seg = segsize /\ segments_ok segsize rest
      end
  end.

(** [splitStringBySize] as it is on every finite [segsize], whole or
    not: [c] and [segsize] are numbers, [len] and the indices that
    [substring] works with are whole.  With [segsize] a positive
    fraction of denominator [q], every iteration advances [c] by at
    least [1 / q], so [q] times [str.length] iterations are enough;
    with [segsize <= 0] and a non-empty string the loop never ends, and
    the model answers [None]. *)
Module Fractional.

Fixpoint splitLoop (fuel : nat) (str : string) (segsize : Q) (len : Z)
         (c : Q) (dataSegs : list string) : option (list string) :=
  if JsFraction.ltb c (inject_Z len) then
    match fuel with
    | O => None
    | S fuel' =>
        let seg :=
          if JsFraction.ltb (inject_Z len) (c + segsize)%Q
          then JsString.substring str (JsFraction.toInteger c) len
          else JsString.substring str (JsFraction.toInteger c)
                 (JsFraction.toInteger (c + segsize)%Q) in
        splitLoop fuel' str segsize len (c + segsize)%Q (dataSegs ++ [seg])
    end
  else Some dataSegs.

Definition splitStringBySize (str : string) (segsize : Q)
  : option (list string) :=
  let len := JsString.length str in
  if JsFraction.leb (inject_Z len) segsize then Some [str]
  else splitLoop (String.length str * Pos.to_nat (Qden segsize)) str
                 segsize len (inject_Z 0) [].

End Fractional.

(** [LUIDGenerator]: the closure variable [id] is the state; a call
    returns [id++], that is the old value, and leaves the incremented
    one. *)
Definition LUID_initial : Z := 1.

Definition LUIDGenerator (id : Z) : Z * Z := (id, JsNumber.increment id).

(** The values of [n] successive calls, from the state [id]. *)
Fixpoint LUIDs (n : nat) (id : Z) : list Z :=
  match n with
  | O => []
  | S n' => fst (LUIDGenerator id) :: LUIDs n' (snd (LUIDGenerator id))
  end.

Definition MIN_NAME : string := "[MIN_NAME]".
Definition MAX_NAME : string := "[MAX_NAME]".

(** [a < b] on strings compares code units from the left; a proper
    prefix is smaller. *)
Definition stringCompare (a b : string) : Z :=
  if decide (a = b) then 0
  else if String.ltb a b then -1
  else 1.

(** What the regular expression [INTEGER_REGEXP_] accepts, anchored at
    both ends: an optional minus sign, a group of any number of zeros,
    then one to ten digits. *)
Fixpoint allZeros (s : string) : bool :=
  match s with
  | EmptyString => true
  | String c rest => Ascii.eqb c "0"%char && allZeros rest
  end.

Fixpoint allDigits (s : string) : bool :=
  match s with
  | EmptyString => true
  | String c rest => JsNumber.isDigit c && allDigits rest
  end.

Definition INTEGER_REGEXP_matches (str : string) : Prop :=
  exists sign zeros digits : string,
    str = String.append sign (String.append zeros digits)
    /\ (sign = "" \/ sign = "-")
    /\ allZeros zeros = true
    /\ allDigits digits = true
    /\ (1 <= String.length digits <= 10)%nat.

Definition stripMinus (s : string) : string :=
  match s with
  | String "-"%char rest => rest
  | _ => s
  end.

Fixpoint stripZeros (s : string) : string :=
  match s with
  | String "0"%char rest => stripZeros rest
  | _ => s
  end.

(** [INTEGER_REGEXP_.test(str)], computed: behind the optional minus
    sign there are digits only, at least one, and at most ten once the
    leading zeros are taken off. *)
Definition INTEGER_REGEXP_test (str : string) : bool :=
  let body := stripMinus str in
  negb (String.eqb body "")
  && allDigits body
  && (String.length (stripZeros body) <=? 10)%nat.

Definition INTEGER_32_MIN : Z := -2147483648.
Definition INTEGER_32_MAX : Z := 2147483647.

Definition tryParseInt (str : string) : option Z :=
  if INTEGER_REGEXP_test str then
    let intVal := JsNumber.Number str in
    if (INTEGER_32_MIN <=? intVal) && (intVal <=? INTEGER_32_MAX)
    then Some intVal
    else None
  else None.

Definition nameCompare (a b : string) : Z :=
  if decide (a = b) then 0
  else if bool_decide (a = MIN_NAME) || bool_decide (b = MAX_NAME) then -1
  else if bool_decide (b = MIN_NAME) || bool_decide (a = MAX_NAME) then 1
  else
    match tryParseInt a, tryParseInt b with
    | Some aAsInt, Some bAsInt =>
        if aAsInt - bAsInt =? 0
        then JsString.length a - JsString.length b
        else aAsInt - bAsInt
    | Some _, None => -1
    | None, Some _ => 1
    | None, None => if String.ltb a b then -1 else 1
    end.

(** [ObjectToUniqueKey].  A value is a primitive ([typeof obj !==
    'object'], or [null]) or an object; an object is given by its
    properties in the order [for (const k in obj)] enumerates them
    (an array by its indices).  [stringify] is [JSON.stringify] of
    [@firebase/util]. *)
Inductive Primitive : Type :=
| PUndefined
| PNull
| PBoolean (b : bool)
| PNumber (n : Z)
| PString (s : string).

#[warnings="-register-all"] Inductive Data : Type :=
| Plain (p : Primitive)
| Obj (props : list (string * Data)).

(** [keys.sort()]: without a comparator, an array of strings is sorted
    by [a <= b] on strings. *)
Definition stringLe (a b : string) : Prop := String.leb a b = true.

#[export] Instance stringLe_dec (a b : string) : Decision (stringLe a b).
Proof. unfold stringLe. apply _. Defined.

Definition sortKeys (keys : list string) : list string :=
  merge_sort stringLe keys.

Section ObjectToUniqueKey.
Variable stringify : Primitive -> string.

Fixpoint ObjectToUniqueKey (obj : Data) : string :=
  match obj with
  | Plain p => stringify p
  | Obj props =>
      (* ObjectToUniqueKey(obj[k]) *)
      let keyOf :=
        (fix keyOf (ps : list (string * Data)) (k : string) : string :=
           match ps with
           | [] => stringify PUndefined
           | (k', v) :: rest =>
               if String.eqb k' k then ObjectToUniqueKey v else keyOf rest k
           end) props in
      let keys := sortKeys (map fst props) in
      String.append "{"
        (String.append
           (String.concat ","
              (map (fun k =>
                      String.append (stringify (PString k))
                        (String.append ":" (keyOf k)))
                   keys))
           "}")
  end.

End ObjectToUniqueKey.

(** The same data up to the order of properties, at every depth: the
    properties of one object are, name by name, the same data as those
    of a rearrangement of the other's. *)
#[warnings="-register-all"] Inductive SameData : Data -> Data -> Prop :=
| same_plain (p : Primitive) : SameData (Plain p) (Plain p)
| same_obj (props rearranged props' : list (string * Data)) :
    Forall2 (fun x y => fst x = fst y /\ SameData (snd x) (snd y))
            props rearranged ->
    rearranged ≡ₚ props' ->
    SameData (Obj props) (Obj props').

(** No object, at any depth, has two properties of one name. *)
Fixpoint distinctNames (d : Data) : Prop :=
  match d with
  | Plain _ => True
  | Obj props =>
      NoDup (map fst props)
      /\ (fix each (ps : list (string * Data)) : Prop :=
            match ps with
            | [] => True
            | (_, v) :: rest => distinctNames v /\ each rest
            end) props
  end.

(** The number of constructors, for induction. *)
Fixpoint size (d : Data) : nat :=
  match d with
  | Plain _ => 1%nat
  | Obj props =>
      S ((fix sizes (ps : list (string * Data)) : nat :=
            match ps with
            | [] => 0%nat
            | (_, v) :: rest => (size v + sizes rest)%nat
            end) props)
  end.

End Util.

(** ** JavaScript values *)
Module Js.

(** An optional property or argument: [undefined] (or absent), [null],
    or a value. *)
Inductive Opt (A : Type) : Type :=
| Undefined
| Null
| Defined (a : A).

Arguments Undefined {A}.
Arguments Null {A}.
Arguments Defined {A} a.

(** [o == null] *)
Definition isNullish {A : Type} (o : Opt A) : bool :=
  match o with
  | Defined _ => false
  | _ => true
  end.

(** A runtime value, as far as the code distinguishes them.  Numbers
    are the integers (counts, status codes, milliseconds). *)
Inductive Value : Type :=
| VUndefined
| VNull
| VBoolean (b : bool)
| VNumber (n : Z)
| VString (s : string)
| VObject.

(** [v == null] *)
Definition valueIsNullish (v : Value) : bool :=
  match v with
  | VUndefined | VNull => true
  | _ => false
  end.

End Js.

(** ** storage/src: [implementation/requestinfo.ts], [reference.ts],
       [platform/connection.ts] *)
Module Storage.

(** The errors the code raises, named by their factory functions in
    [implementation/error.ts]; [otherError] stands for every other
    failure a collaborator may report. *)
Inductive StorageError : Type :=
| invalidRootOperation (name : string)
| noDownloadURL
| invalidArgument (message : string)
| otherError (code : string).

(** How a synchronous call ends. *)
Inductive Completion (A : Type) : Type :=
| Returned (a : A)
| Thrown (e : StorageError).

Arguments Returned {A} a.
Arguments Thrown {A} e.

(** What a promise settles with. *)
Inductive Promise (A : Type) : Type :=
| Fulfilled (a : A)
| Rejected (e : StorageError).

Arguments Fulfilled {A} a.
Arguments Rejected {A} e.

(** [p.then(f)]: a callback that throws rejects the derived promise. *)
Definition then_ {A B : Type} (p : Promise A) (f : A -> Completion B)
  : Promise B :=
  match p with
  | Fulfilled a =>
      match f a with
      | Returned b => Fulfilled b
      | Thrown e => Rejected e
      end
  | Rejected e => Rejected e
  end.

(** [implementation/location.ts], as far as the code reads it. *)
Record Location : Type := { bucket : string; path : string }.

(** [Blob | string | Uint8Array] request bodies. *)
Inductive Body : Type :=
| BlobBody (bytes : list Byte.byte)
| StringBody (text : string)
| Uint8ArrayBody (bytes : list Byte.byte).

(** [string | number] values of [UrlParams]. *)
Inductive UrlParam : Type :=
| ParamString (s : string)
| ParamNumber (n : Z).

Abbreviation Metadata := (gmap string Js.Value).

(** The types the sources import without defining them. *)
Class Env : Type := {
  Connection : Type;
  FirebaseStorageImpl : Type;
  (** the state of the remote service and of the connections to it *)
  Net : Type;
  FbsBlob : Type;
  (** [Blob | Uint8Array | ArrayBuffer] *)
  UploadData : Type;
  UploadTask : Type;
  Mappings : Type;
  StringFormat : Type
}.

Section Model.
Context {env : Env}.

(** *** requestinfo.ts *)

Record RequestInfo (T : Type) : Type := {
  url : string;
  method : string;
  handler : Connection -> string -> Completion T;
  timeout : Z;
  urlParams : gmap string UrlParam;
  headers : gmap string string;
  body : option Body;
  errorHandler : option (Connection -> StorageError -> StorageError);
  progressCallback : option (Z -> Z -> unit);
  successCodes : list Z;
  additionalRetryCodes : list Z
}.

Arguments url {T} _.
Arguments method {T} _.
Arguments handler {T} _.
Arguments timeout {T} _.
Arguments urlParams {T} _.
Arguments headers {T} _.
Arguments body {T} _.
Arguments errorHandler {T} _.
Arguments progressCallback {T} _.
Arguments successCodes {T} _.
Arguments additionalRetryCodes {T} _.

(** [new RequestInfo(url, method, handler, timeout)]: the four
    constructor parameters, and the field initialisers of the class. *)
Definition new_RequestInfo {T : Type} (url : string) (method : string)
    (handler : Connection -> string -> Completion T) (timeout : Z)
  : RequestInfo T :=
  {| url := url;
     method := method;
     handler := handler;
     timeout := timeout;
     urlParams := ∅;
     headers := ∅;
     body := None;
     errorHandler := None;
     progressCallback := None;
     successCodes := [200];
     additionalRetryCodes := [] |}.

(** Modelled from the spec: the request builders
    ([implementation/requests.ts]) and the request executor, which hold
    every assignment to a field of an existing [RequestInfo], are not
    among the sources.  The spec's data model lets the fields that the
    class initialises by default be filled in after construction, and
    keeps [url] and [method] as constructed.  A [FieldWrite] is one
    such assignment, [requestInfo.field = value]. *)
Inductive FieldWrite (T : Type) : Type :=
| WriteUrlParams (v : gmap string UrlParam)
| WriteHeaders (v : gmap string string)
| WriteBody (v : option Body)
| WriteErrorHandler (v : option (Connection -> StorageError -> StorageError))
| WriteProgressCallback (v : option (Z -> Z -> unit))
| WriteSuccessCodes (v : list Z)
| WriteAdditionalRetryCodes (v : list Z).

Arguments WriteUrlParams {T} v.
Arguments WriteHeaders {T} v.
Arguments WriteBody {T} v.
Arguments WriteErrorHandler {T} v.
Arguments WriteProgressCallback {T} v.
Arguments WriteSuccessCodes {T} v.
Arguments WriteAdditionalRetryCodes {T} v.

Definition write {T : Type} (f : FieldWrite T) (r : RequestInfo T)
  : RequestInfo T :=
  let mk := Build_RequestInfo T (url r) (method r) (handler r) (timeout r) in
  match f with
  | WriteUrlParams v =>
      mk v (headers r) (body r) (errorHandler r) (progressCallback r)
         (successCodes r) (additionalRetryCodes r)
  | WriteHeaders v =>
      mk (urlParams r) v (body r) (errorHandler r) (progressCallback r)
         (successCodes r) (additionalRetryCodes r)
  | WriteBody v =>
      mk (urlParams r) (headers r) v (errorHandler r) (progressCallback r)
         (successCodes r) (additionalRetryCodes r)
  | WriteErrorHandler v =>
      mk (urlParams r) (headers r) (body r) v (progressCallback r)
         (successCodes r) (additionalRetryCodes r)
  | WriteProgressCallback v =>
      mk (urlParams r) (headers r) (body r) (errorHandler r) v
         (successCodes r) (additionalRetryCodes r)
  | WriteSuccessCodes v =>
      mk (urlParams r) (headers r) (body r) (errorHandler r)
         (progressCallback r) v (additionalRetryCodes r)
  | WriteAdditionalRetryCodes v =>
      mk (urlParams r) (headers r) (body r) (errorHandler r)
         (progressCallback r) (successCodes r) v
  end.

(** Modelled from the spec: the statements of the absent builders and
    executor that touch a [RequestInfo], construction and field
    assignment.  Instances live in a heap and are known by their
    address, so that two names for one instance see each other's
    writes. *)
Inductive Stmt (T : Type) : Type :=
| New (url method : string)
      (handler : Connection -> string -> Completion T) (timeout : Z)
| Assign (address : nat) (f : FieldWrite T).

Arguments New {T} url method handler timeout.
Arguments Assign {T} address f.

(** Modelled from the spec: one statement of the absent code.  [New]
    allocates at the next free address; an [Assign] through an address
    that holds no instance changes nothing. *)
Definition exec {T : Type} (s : Stmt T) (heap : list (RequestInfo T))
  : list (RequestInfo T) :=
  match s with
  | New u m h t => heap ++ [new_RequestInfo u m h t]
  | Assign a f =>
      match heap !! a with
      | Some r => <[a := write f r]> heap
      | None => heap
      end
  end.

(** Modelled from the spec: any sequence of such statements of the
    absent code. *)
Definition run {T : Type} (prog : list (Stmt T)) (heap : list (RequestInfo T))
  : list (RequestInfo T) :=
  foldl (fun h s => exec s h) heap prog.

(** *** reference.ts: data *)

Record Reference : Type := {
  _service : FirebaseStorageImpl;
  _location : Location
}.

(** [get storage()] *)
Definition storage (ref : Reference) : FirebaseStorageImpl := _service ref.

(** [get bucket()] and [get fullPath()] *)
Definition refBucket (ref : Reference) : string := bucket (_location ref).
Definition fullPath (ref : Reference) : string := path (_location ref).

(** [get root()] *)
Definition root (ref : Reference) : Reference :=
  {| _service := _service ref;
     _location := {| bucket := bucket (_location ref); path := "" |} |}.

(** [ListResult] of [list.ts]; an absent [nextPageToken] property reads
    as [undefined]. *)
Record ListResult : Type := {
  prefixes : list Reference;
  items : list Reference;
  nextPageToken : Js.Opt string
}.

(** [ListOptions] of [public-types.ts]; [maxResults] is kept as a
    runtime value because [list] tests [typeof maxResults === 'number']. *)
Record ListOptions : Type := {
  maxResults : Js.Value;
  pageToken : Js.Opt string
}.

Record UploadResult : Type := {
  metadata : Metadata;
  ref : Reference
}.

(** What [dataFromString] of [implementation/string.ts] returns. *)
Record StringData : Type := {
  data : UploadData;
  contentType : Js.Opt string
}.

(** The functions the sources import without defining them.  The
    request builders construct a description and have no other effect;
    [makeRequestWithTokens] answers with the value the promise settles
    with and the next state of the network; the [UploadTask] constructor
    starts the transfer. *)
Class Collaborators : Type := {
  getMappings : Mappings;
  newFbsBlob : UploadData -> bool -> FbsBlob;
  multipartUpload :
    FirebaseStorageImpl -> Location -> Mappings -> FbsBlob ->
    Js.Opt Metadata -> RequestInfo Metadata;
  requestsList :
    FirebaseStorageImpl -> Location -> string -> Js.Opt string ->
    Js.Value -> RequestInfo ListResult;
  requestsGetMetadata :
    FirebaseStorageImpl -> Location -> Mappings -> RequestInfo Metadata;
  requestsUpdateMetadata :
    FirebaseStorageImpl -> Location -> Metadata -> Mappings ->
    RequestInfo Metadata;
  requestsGetDownloadUrl :
    FirebaseStorageImpl -> Location -> Mappings ->
    RequestInfo (option string);
  requestsDeleteObject :
    FirebaseStorageImpl -> Location -> RequestInfo unit;
  RAW : StringFormat;
  dataFromString : StringFormat -> string -> Completion StringData;
  nodeNewConnection : unit -> Connection;
  makeRequestWithTokens :
    forall T : Type, FirebaseStorageImpl -> RequestInfo T ->
                     (unit -> Connection) -> Net -> Promise T * Net;
  newUploadTask :
    Reference -> FbsBlob -> Js.Opt Metadata -> Net -> UploadTask * Net
}.

Context {collaborators : Collaborators}.

(** *** platform/connection.ts *)
Definition newConnection : unit -> Connection :=
  fun _ => nodeNewConnection tt.

(** *** The observable course of a call *)

(** A call of a request builder, with the arguments [reference.ts]
    passes. *)
Inductive BuilderCall : Type :=
| CallMultipartUpload (loc : Location) (blob : FbsBlob)
                      (metadata : Js.Opt Metadata)
| CallList (loc : Location) (delimiter : string)
           (pageToken : Js.Opt string) (maxResults : Js.Value)
| CallGetMetadata (loc : Location)
| CallUpdateMetadata (loc : Location) (metadata : Metadata)
| CallGetDownloadUrl (loc : Location)
| CallDeleteObject (loc : Location).

Inductive Event : Type :=
| RequestBuilt (call : BuilderCall)
| RequestIssued (T : Type) (requestInfo : RequestInfo T)
| PageReceived (page : ListResult)
| UploadTaskCreated (ref : Reference).

(** The network, the events so far, the number of [listAllHelper]
    activations that have been called and have not settled, and the
    largest number of them there has been at once. *)
Record World : Type := {
  net : Net;
  trace : list Event;
  pending : nat;
  peak : nat
}.

Definition emitEvent (e : Event) (w : World) : World :=
  {| net := net w; trace := trace w ++ [e];
     pending := pending w; peak := peak w |}.

Definition setNet (n : Net) (w : World) : World :=
  {| net := n; trace := trace w; pending := pending w; peak := peak w |}.

Definition enter (w : World) : World :=
  {| net := net w; trace := trace w;
     pending := S (pending w);
     peak := Nat.max (peak w) (S (pending w)) |}.

Definition leave (w : World) : World :=
  {| net := net w; trace := trace w;
     pending := Nat.pred (pending w); peak := peak w |}.

(** A synchronous computation over the world. *)
Definition M (A : Type) : Type := World -> Completion A * World.

Definition ret {A : Type} (a : A) : M A := fun w => (Returned a, w).

Definition throw {A : Type} (e : StorageError) : M A :=
  fun w => (Thrown e, w).

Definition bind {A B : Type} (m : M A) (k : A -> M B) : M B :=
  fun w =>
    match m w with
    | (Returned a, w') => k a w'
    | (Thrown e, w') => (Thrown e, w')
    end.

Notation "x <- m ;; k" := (bind m (fun x => k))
  (at level 100, m at level 99, right associativity).
Notation "m ;; k" := (bind m (fun _ => k))
  (at level 100, right associativity).

Definition emit (e : Event) : M unit :=
  fun w => (Returned tt, emitEvent e w).

(** [service.makeRequestWithTokens(requestInfo, newConnection)] *)
Definition makeRequest {T : Type} (service : FirebaseStorageImpl)
    (requestInfo : RequestInfo T) : M (Promise T) :=
  fun w =>
    let w1 := emitEvent (RequestIssued T requestInfo) w in
    let '(p, n) :=
      makeRequestWithTokens T service requestInfo newConnection (net w1) in
    (Returned p, setNet n w1).

(** Modelled from the spec: [validateNumber] of [implementation/type.ts]
    is not among the sources.  An invalid option value is a programmer
    misuse, raised at once: the call raises an invalid-argument error
    when [value] lies outside [minValue, maxValue]. *)
Definition validateNumber (argument : string) (minValue maxValue value : Z)
  : M unit :=
  if (value <? minValue) || (maxValue <? value)
  then throw (invalidArgument argument)
  else ret tt.

(** *** reference.ts: operations *)

Definition _throwIfRoot (ref : Reference) (name : string) : M unit :=
  if decide (path (_location ref) = "")
  then throw (invalidRootOperation name)
  else ret tt.

Definition uploadBytes (ref : Reference) (data : UploadData)
    (metadata : Js.Opt Metadata) : M (Promise UploadResult) :=
  _throwIfRoot ref "uploadBytes" ;;
  let blob := newFbsBlob data true in
  let requestInfo :=
    multipartUpload (storage ref) (_location ref) getMappings blob metadata in
  emit (RequestBuilt (CallMultipartUpload (_location ref) blob metadata)) ;;
  p <- makeRequest (storage ref) requestInfo ;;
  ret (then_ p (fun finalMetadata =>
                  Returned {| metadata := finalMetadata; ref := ref |})).

Definition uploadBytesResumable (ref : Reference) (data : UploadData)
    (metadata : Js.Opt Metadata) : M UploadTask :=
  _throwIfRoot ref "uploadBytesResumable" ;;
  fun w =>
    let blob := newFbsBlob data false in
    let '(task, n) := newUploadTask ref blob metadata (net w) in
    (Returned task, setNet n (emitEvent (UploadTaskCreated ref) w)).

(** [format] is [None] when the argument is omitted. *)
Definition uploadString (ref : Reference) (value : string)
    (format : option StringFormat) (metadata : Js.Opt Metadata)
  : M (Promise UploadResult) :=
  let format := default RAW format in
  _throwIfRoot ref "uploadString" ;;
  stringData <- (fun w => (dataFromString format value, w)) ;;
  let metadataClone : Metadata :=
    match metadata with
    | Js.Defined m => m
    | _ => ∅
    end in
  let metadataClone :=
    match metadataClone !! "contentType", contentType stringData with
    | None, Js.Defined ct
      => <["contentType" := Js.VString ct]> metadataClone
    | Some v, Js.Defined ct
      => if Js.valueIsNullish v
         then <["contentType" := Js.VString ct]> metadataClone
         else metadataClone
    | _, _ => metadataClone
    end in
  uploadBytes ref (data stringData) (Js.Defined metadataClone).

(** [options || {}] *)
Definition optionsOrEmpty (options : Js.Opt ListOptions) : ListOptions :=
  match options with
  | Js.Defined o => o
  | _ => {| maxResults := Js.VUndefined; pageToken := Js.Undefined |}
  end.

Definition list (ref : Reference) (options : Js.Opt ListOptions)
  : M (Promise ListResult) :=
  match options with
  | Js.Defined o =>
      match maxResults o with
      | Js.VNumber n => validateNumber "options.maxResults" 1 1000 n
      | _ => ret tt
      end
  | _ => ret tt
  end ;;
  let op := optionsOrEmpty options in
  let requestInfo :=
    requestsList (storage ref) (_location ref) "/"
                 (pageToken op) (maxResults op) in
  emit (RequestBuilt
          (CallList (_location ref) "/" (pageToken op) (maxResults op))) ;;
  makeRequest (storage ref) requestInfo.

(** [accumulator.prefixes.push(...nextPage.prefixes);
     accumulator.items.push(...nextPage.items)] *)
Definition pushPage (accumulator nextPage : ListResult) : ListResult :=
  {| prefixes := prefixes accumulator ++ prefixes nextPage;
     items := items accumulator ++ items nextPage;
     nextPageToken := nextPageToken accumulator |}.

(** [listAllHelper] is an async function: whatever [list] throws or
    rejects with rejects its promise.  The accumulator is an object the
    caller shares, so its final state is handed back whichever way the
    promise settles.  [fuel] bounds the number of nested calls; [None]
    means the bound was reached. *)
Fixpoint listAllHelper (fuel : nat) (ref : Reference)
    (accumulator : ListResult) (pageToken : Js.Opt string) (w : World)
  : option (Promise unit * ListResult * World) :=
  match fuel with
  | O => None
  | S fuel' =>
      let opt := {| maxResults := Js.VUndefined; pageToken := pageToken |} in
      match list ref (Js.Defined opt) (enter w) with
      | (Thrown e, w1) => Some (Rejected e, accumulator, leave w1)
      | (Returned (Rejected e), w1) => Some (Rejected e, accumulator, leave w1)
      | (Returned (Fulfilled nextPage), w1) =>
          let w2 := emitEvent (PageReceived nextPage) w1 in
          let accumulator := pushPage accumulator nextPage in
          match nextPageToken nextPage with
          | Js.Defined token =>
              match listAllHelper fuel' ref accumulator (Js.Defined token) w2 with
              | Some (p, accumulator', w3) => Some (p, accumulator', leave w3)
              | None => None
              end
          | _ => Some (Fulfilled tt, accumulator, leave w2)
          end
      end
  end.

(** [listAll] is not async, and [listAllHelper] never throws: the
    result is the helper's promise, mapped to the shared accumulator. *)
Definition listAll (fuel : nat) (ref : Reference) (w : World)
  : option (Promise ListResult * World) :=
  let accumulator :=
    {| prefixes := []; items := []; nextPageToken := Js.Undefined |} in
  match listAllHelper fuel ref accumulator Js.Undefined w with
  | Some (p, accumulator', w') =>
      Some (then_ p (fun _ => Returned accumulator'), w')
  | None => None
  end.

Definition getMetadata (ref : Reference) : M (Promise Metadata) :=
  _throwIfRoot ref "getMetadata" ;;
  let requestInfo :=
    requestsGetMetadata (storage ref) (_location ref) getMappings in
  emit (RequestBuilt (CallGetMetadata (_location ref))) ;;
  makeRequest (storage ref) requestInfo.

Definition updateMetadata (ref : Reference) (metadata : Metadata)
  : M (Promise Metadata) :=
  _throwIfRoot ref "updateMetadata" ;;
  let requestInfo :=
    requestsUpdateMetadata (storage ref) (_location ref) metadata getMappings in
  emit (RequestBuilt (CallUpdateMetadata (_location ref) metadata)) ;;
  makeRequest (storage ref) requestInfo.

(** The request settles with [string | null]; the value the callback
    returns is the one it was given. *)
Definition getDownloadURL (ref : Reference) : M (Promise (option string)) :=
  _throwIfRoot ref "getDownloadURL" ;;
  let requestInfo :=
    requestsGetDownloadUrl (storage ref) (_location ref) getMappings in
  emit (RequestBuilt (CallGetDownloadUrl (_location ref))) ;;
  p <- makeRequest (storage ref) requestInfo ;;
  ret (then_ p (fun url =>
                  match url with
                  | None => Thrown noDownloadURL
                  | Some _ => Returned url
                  end)).

Definition deleteObject (ref : Reference) : M (Promise unit) :=
  _throwIfRoot ref "deleteObject" ;;
  let requestInfo := requestsDeleteObject (storage ref) (_location ref) in
  emit (RequestBuilt (CallDeleteObject (_location ref))) ;;
  makeRequest (storage ref) requestInfo.

(** *** Vocabulary for statements about [listAll] *)

(** The two events of one [list] call made by [listAllHelper]: the
    request is built from the page token, then issued. *)
Definition listRequest (ref : Reference) (pageToken : Js.Opt string)
  : Datatypes.list Event :=
  let svc := storage ref in
  let loc := _location ref in
  [ RequestBuilt (CallList loc "/" pageToken Js.VUndefined);
    RequestIssued ListResult
      (requestsList svc loc "/" pageToken Js.VUndefined) ].

(** The options object has a [maxResults] that is a number outside
    [1, 1000]. *)
Definition maxResultsOutOfRange (options : Js.Opt ListOptions) : bool :=
  match options with
  | Js.Defined o =>
      match maxResults o with
      | Js.VNumber n => negb ((1 <=? n) && (n <=? 1000))
      | _ => false
      end
  | _ => false
  end.

(** The network is scripted with [pages]: from state [n], the list
    request for [pageToken] and the requests that follow from the tokens
    of the answers are answered with [pages], in order, every page but
    the last carrying a token; [n'] is the state after the last. *)
Inductive Serves (ref : Reference)
  : Js.Opt string -> Net -> Datatypes.list ListResult -> Net -> Prop :=
| serves_last pageToken n page n' :
    makeRequestWithTokens ListResult (storage ref)
      (requestsList (storage ref) (_location ref) "/" pageToken Js.VUndefined)
      newConnection n = (Fulfilled page, n') ->
    Js.isNullish (nextPageToken page) = true ->
    Serves ref pageToken n [page] n'
| serves_next pageToken n page token n' pages n'' :
    makeRequestWithTokens ListResult (storage ref)
      (requestsList (storage ref) (_location ref) "/" pageToken Js.VUndefined)
      newConnection n = (Fulfilled page, n') ->
    nextPageToken page = Js.Defined token ->
    Serves ref (Js.Defined token) n' pages n'' ->
    Serves ref pageToken n (page :: pages) n''.

(** The events of a run that receives [pages]. *)
Fixpoint pagesTrace (ref : Reference) (pageToken : Js.Opt string)
    (pages : Datatypes.list ListResult) : Datatypes.list Event :=
  match pages with
  | [] => []
  | page :: pages' =>
      listRequest ref pageToken ++
      PageReceived page :: pagesTrace ref (nextPageToken page) pages'
  end.

(** The shapes the events of a [listAllHelper] call can take: the
    request fails; or a page without a token arrives; or a page with a
    token arrives and the nested call runs. *)
Inductive ListRun (ref : Reference)
  : Js.Opt string -> Datatypes.list Event -> Prop :=
| run_failed pageToken :
    ListRun ref pageToken (listRequest ref pageToken)
| run_last pageToken page :
    Js.isNullish (nextPageToken page) = true ->
    ListRun ref pageToken (listRequest ref pageToken ++ [PageReceived page])
| run_next pageToken page token events :
    nextPageToken page = Js.Defined token ->
    ListRun ref (Js.Defined token) events ->
    ListRun ref pageToken
      (listRequest ref pageToken ++ PageReceived page :: events).

(** The network serves [pages], each with a token, and then fails the
    request that follows with [e]; [n'] is the state after the
    failure. *)
Inductive FailsAfter (ref : Reference)
  : Js.Opt string -> Net -> Datatypes.list ListResult -> StorageError ->
    Net -> Prop :=
| fails_now pageToken n e n' :
    makeRequestWithTokens ListResult (storage ref)
      (requestsList (storage ref) (_location ref) "/" pageToken Js.VUndefined)
      newConnection n = (Rejected e, n') ->
    FailsAfter ref pageToken n [] e n'
| fails_later pageToken n page token n' pages e n'' :
    makeRequestWithTokens ListResult (storage ref)
      (requestsList (storage ref) (_location ref) "/" pageToken Js.VUndefined)
      newConnection n = (Fulfilled page, n') ->
    nextPageToken page = Js.Defined token ->
    FailsAfter ref (Js.Defined token) n' pages e n'' ->
    FailsAfter ref pageToken n (page :: pages) e n''.

(** The token the request after [pages] carries. *)
Definition tokenAfter (pageToken : Js.Opt string)
    (pages : Datatypes.list ListResult) : Js.Opt string :=
  match reverse pages with
  | [] => pageToken
  | page :: _ => nextPageToken page
  end.

(** What the network answers to the list requests of a listing, one
    request after the other: from state [n], the request for
    [pageToken] is answered with the first of [responses]; when that
    is a page with a token, the request for that token is answered
    with the next one, and so on.  The last response is a failure or a
    page without a token; [n'] is the state after it. *)
Inductive Answers (ref : Reference)
  : Js.Opt string -> Net -> Datatypes.list (Promise ListResult) -> Net ->
    Prop :=
| answers_failed pageToken n e n' :
    makeRequestWithTokens ListResult (storage ref)
      (requestsList (storage ref) (_location ref) "/" pageToken Js.VUndefined)
      newConnection n = (Rejected e, n') ->
    Answers ref pageToken n [Rejected e] n'
| answers_last pageToken n page n' :
    makeRequestWithTokens ListResult (storage ref)
      (requestsList (storage ref) (_location ref) "/" pageToken Js.VUndefined)
      newConnection n = (Fulfilled page, n') ->
    Js.isNullish (nextPageToken page) = true ->
    Answers ref pageToken n [Fulfilled page] n'
| answers_next pageToken n page token n' responses n'' :
    makeRequestWithTokens ListResult (storage ref)
      (requestsList (storage ref) (_location ref) "/" pageToken Js.VUndefined)
      newConnection n = (Fulfilled page, n') ->
    nextPageToken page = Js.Defined token ->
    Answers ref (Js.Defined token) n' responses n'' ->
    Answers ref pageToken n (Fulfilled page :: responses) n''.

(** The events of a run other than the pages received: the calls of
    the request builders, the requests handed to the network and the
    upload tasks started. *)
Definition outgoing (events : Datatypes.list Event) : Datatypes.list Event :=
  List.filter (fun e => match e with
                        | PageReceived _ => false
                        | _ => true
                        end) events.

(** [toString()] *)
Definition toString (ref : Reference) : string :=
  String.append "gs://"
    (String.append (bucket (_location ref))
       (String.append "/" (path (_location ref)))).

End Model.

Arguments url {env T} _.
Arguments method {env T} _.
Arguments handler {env T} _.
Arguments timeout {env T} _.
Arguments urlParams {env T} _.
Arguments headers {env T} _.
Arguments body {env T} _.
Arguments errorHandler {env T} _.
Arguments progressCallback {env T} _.
Arguments successCodes {env T} _.
Arguments additionalRetryCodes {env T} _.
Arguments WriteUrlParams {env T} v.
Arguments WriteHeaders {env T} v.
Arguments WriteBody {env T} v.
Arguments WriteErrorHandler {env T} v.
Arguments WriteProgressCallback {env T} v.
Arguments WriteSuccessCodes {env T} v.
Arguments WriteAdditionalRetryCodes {env T} v.
Arguments New {env T} url method handler timeout.
Arguments Assign {env T} address f.

End Storage.

(** ** A scripted network, in the manner of the test connection of
       the storage tests: every request is answered by the next
       response of the script, whatever it asks. *)
Module Scripted.

(** A page as the service sends it: object and folder paths, and the
    token. *)
Record RawPage : Type := {
  rawPrefixes : list string;
  rawItems : list string;
  rawToken : Js.Opt string
}.

Inductive Response : Type :=
| PageResponse (page : RawPage)
| UrlResponse (url : option string)
| EmptyResponse
| FailureResponse (e : Storage.StorageError).

#[export] Instance env : Storage.Env := {|
  Storage.Connection := Response;
  Storage.FirebaseStorageImpl := unit;
  Storage.Net := list Response;
  Storage.FbsBlob := unit;
  Storage.UploadData := unit;
  Storage.UploadTask := unit;
  Storage.Mappings := unit;
  Storage.StringFormat := unit
|}.

Definition unexpected {A : Type} : Storage.Completion A :=
  Storage.Thrown (Storage.otherError "unexpected response").

Definition refAt (loc : Storage.Location) (p : string) : Storage.Reference :=
  {| Storage._service := tt;
     Storage._location :=
       {| Storage.bucket := Storage.bucket loc; Storage.path := p |} |}.

Definition decodePage (loc : Storage.Location) (page : RawPage)
  : Storage.ListResult :=
  {| Storage.prefixes := map (refAt loc) (rawPrefixes page);
     Storage.items := map (refAt loc) (rawItems page);
     Storage.nextPageToken := rawToken page |}.

Definition send (T : Type) (service : unit)
    (requestInfo : Storage.RequestInfo T) (factory : unit -> Response)
    (script : list Response) : Storage.Promise T * list Response :=
  match script with
  | [] => (Storage.Rejected (Storage.otherError "no scripted response"), [])
  | FailureResponse e :: rest => (Storage.Rejected e, rest)
  | response :: rest =>
      (match Storage.handler requestInfo response "" with
       | Storage.Returned v => Storage.Fulfilled v
       | Storage.Thrown e => Storage.Rejected e
       end, rest)
  end.

(** A network that answers every request with the first response of
    its script and keeps the script: a listing that never ends when
    that response is a page with a token. *)
Definition resend (T : Type) (service : unit)
    (requestInfo : Storage.RequestInfo T) (factory : unit -> Response)
    (script : list Response) : Storage.Promise T * list Response :=
  match script with
  | [] => (Storage.Rejected (Storage.otherError "no scripted response"), [])
  | FailureResponse e :: _ => (Storage.Rejected e, script)
  | response :: _ =>
      (match Storage.handler requestInfo response "" with
       | Storage.Returned v => Storage.Fulfilled v
       | Storage.Thrown e => Storage.Rejected e
       end, script)
  end.

(** The collaborators of the double, around a way of answering. *)
Definition collaboratorsWith
    (answer : forall T : Type, unit -> Storage.RequestInfo T ->
                               (unit -> Response) -> list Response ->
                               Storage.Promise T * list Response)
  : Storage.Collaborators := {|
  Storage.getMappings := tt;
  Storage.newFbsBlob := fun _ _ => tt;
  Storage.multipartUpload := fun _ _ _ _ _ =>
    Storage.new_RequestInfo "upload" "POST"
      (fun _ _ => Storage.Returned ∅) 0;
  Storage.requestsList := fun _ loc _ _ _ =>
    Storage.new_RequestInfo "list" "GET"
      (fun response _ =>
         match response with
         | PageResponse page => Storage.Returned (decodePage loc page)
         | _ => unexpected
         end) 0;
  Storage.requestsGetMetadata := fun _ _ _ =>
    Storage.new_RequestInfo "metadata" "GET"
      (fun _ _ => Storage.Returned ∅) 0;
  Storage.requestsUpdateMetadata := fun _ _ metadata _ =>
    Storage.new_RequestInfo "metadata" "PATCH"
      (fun _ _ => Storage.Returned metadata) 0;
  Storage.requestsGetDownloadUrl := fun _ _ _ =>
    Storage.new_RequestInfo "metadata" "GET"
      (fun response _ =>
         match response with
         | UrlResponse url => Storage.Returned url
         | _ => unexpected
         end) 0;
  Storage.requestsDeleteObject := fun _ _ =>
    Storage.new_RequestInfo "object" "DELETE"
      (fun _ _ => Storage.Returned tt) 0;
  Storage.RAW := tt;
  Storage.dataFromString := fun _ _ =>
    Storage.Returned
      {| Storage.data := tt; Storage.contentType := Js.Undefined |};
  Storage.nodeNewConnection := fun _ => EmptyResponse;
  Storage.makeRequestWithTokens := answer;
  Storage.newUploadTask := fun _ _ _ script => (tt, script)
|}.

#[export] Instance collaborators : Storage.Collaborators :=
  collaboratorsWith send.

Definition repeating : Storage.Collaborators := collaboratorsWith resend.

(** A world with the given script and nothing done yet. *)
Definition world (script : list Response) : Storage.World :=
  {| Storage.net := script; Storage.trace := [];
     Storage.pending := 0%nat; Storage.peak := 0%nat |}.

Definition objectRef (p : string) : Storage.Reference :=
  {| Storage._service := tt;
     Storage._location := {| Storage.bucket := "b"; Storage.path := p |} |}.

(** A listing of [n + 1] pages: [n] pages with one item and a token
    each, then a page with one item and no token. *)
Fixpoint listing (n : nat) : list RawPage :=
  match n with
  | O => [ {| rawPrefixes := []; rawItems := ["last"];
              rawToken := Js.Undefined |} ]
  | S n' => {| rawPrefixes := ["dir"]; rawItems := ["item"];
               rawToken := Js.Defined "next" |} :: listing n'
  end.

(** A listing of three pages whose tokens differ. *)
Definition chapters : list RawPage :=
  [ {| rawPrefixes := ["dir"]; rawItems := ["a"];
       rawToken := Js.Defined "t1" |};
    {| rawPrefixes := []; rawItems := ["b"; "c"];
       rawToken := Js.Defined "t2" |};
    {| rawPrefixes := []; rawItems := ["d"]; rawToken := Js.Null |} ].

End Scripted.

(** ** auth-exp/src/core/persistence/browser.ts *)
Module Persistence.

(** What the host can throw at these calls: a property access on a
    missing storage object, [setItem] over quota, [JSON.parse] on text
    that is not JSON. *)
Inductive Error : Type :=
| TypeError
| QuotaExceededError
| SyntaxError.

Inductive Promise (A : Type) : Type :=
| Fulfilled (a : A)
| Rejected (e : Error).

Arguments Fulfilled {A} a.
Arguments Rejected {A} e.

(** The host environment: the JSON-representable values with [null]
    among them, [JSON.stringify] and [JSON.parse] ([None] for a
    [SyntaxError]), and the quota check of the DOM storage.  The text
    of a JSON value is never the empty string. *)
Class Host : Type := {
  Json : Type;
  null : Json;
  JSON_stringify : Json -> string;
  JSON_parse : string -> option Json;
  quotaExceeded : gmap string string -> string -> string -> bool;
  JSON_stringify_not_empty : forall v : Json, JSON_stringify v <> ""
}.

(** The [_STORAGE_AVAILABLE_KEY] constant. *)
Definition _STORAGE_AVAILABLE_KEY : string := "__sak".

Section BrowserPersistence.
Context {host : Host}.

(** [this.storage]: the DOM [Storage] object as the map from keys to
    texts it holds, or [None] where the browser provides none. *)
Definition Store : Type := option (gmap string string).

(** [storage.setItem(key, value)], [storage.getItem(key)] and
    [storage.removeItem(key)] on a storage object that exists. *)
Definition setItem (key value : string) (items : gmap string string)
  : Error + gmap string string :=
  if quotaExceeded items key value
  then inl QuotaExceededError
  else inr (<[key := value]> items).

Definition getItem (key : string) (items : gmap string string)
  : option string :=
  items !! key.

Definition removeItem (key : string) (items : gmap string string)
  : gmap string string :=
  delete key items.

(** [async isAvailable()] *)
Definition isAvailable (storage : Store) : Promise bool * Store :=
  match storage with
  | None => (Fulfilled false, storage)
  | Some items =>
      match setItem _STORAGE_AVAILABLE_KEY "1" items with
      | inl _ => (Fulfilled false, storage)
      | inr items' =>
          (Fulfilled true, Some (removeItem _STORAGE_AVAILABLE_KEY items'))
      end
  end.

(** [async set(key, value)] *)
Definition set (key : string) (value : Json) (storage : Store)
  : Promise unit * Store :=
  match storage with
  | None => (Rejected TypeError, storage)
  | Some items =>
      match setItem key (JSON_stringify value) items with
      | inl e => (Rejected e, storage)
      | inr items' => (Fulfilled tt, Some items')
      end
  end.

(** [JSON.parse(json)] inside an async function. *)
Definition parsed (json : string) : Promise Json :=
  match JSON_parse json with
  | Some v => Fulfilled v
  | None => Rejected SyntaxError
  end.

(** [async get(key)]: [json ? JSON.parse(json) : null], where [null]
    and the empty string are the falsy texts. *)
Definition get (key : string) (storage : Store) : Promise Json :=
  match storage with
  | None => Rejected TypeError
  | Some items =>
      match getItem key items with
      | None => Fulfilled null
      | Some json =>
          if decide (json = "") then Fulfilled null else parsed json
      end
  end.

(** [async remove(key)] *)
Definition remove (key : string) (storage : Store) : Promise unit * Store :=
  match storage with
  | None => (Rejected TypeError, storage)
  | Some items => (Fulfilled tt, Some (removeItem key items))
  end.

End BrowserPersistence.

(** A small host for examples: the values are [null] and the strings
    without escapes, written between double quotes; the storage holds
    at most [limit] characters per item. *)
Module QuotedStrings.

Definition quote : string := String (Ascii.ascii_of_nat 34) EmptyString.

Definition stringify (v : option string) : string :=
  match v with
  | None => "null"
  | Some s => String.append quote (String.append s quote)
  end.

Definition parse (json : string) : option (option string) :=
  if decide (json = "null") then Some None
  else
    let n := String.length json in
    if (2 <=? n)%nat
       && String.eqb (String.substring 0 1 json) quote
       && String.eqb (String.substring (n - 1) 1 json) quote
    then Some (Some (String.substring 1 (n - 2) json))
    else None.

Definition host (limit : nat) : Host := {|
  Json := option string;
  null := None;
  JSON_stringify := stringify;
  JSON_parse := parse;
  quotaExceeded := fun _ _ value => (limit <? String.length value)%nat;
  JSON_stringify_not_empty :=
    fun v => match v with
             | None => ltac:(discriminate)
             | Some _ => ltac:(discriminate)
             end
|}.

End QuotedStrings.

End Persistence.

(* ================================================================== *)
(** * Part II: lemmas and theorems                                     *)
(* ================================================================== *)

(** ** Strings *)

Lemma substring_length (n m : nat) (s : string) :
  String.length (String.substring n m s) = Nat.min m (String.length s - n).
Proof.
  revert n m; induction s as [|c s IH]; intros [|n] [|m]; simpl;
    rewrite ?IH; try reflexivity; lia.
Qed.

Lemma drop_all (n : nat) (s : string) :
  (String.length s <= n)%nat -> JsString.drop n s = EmptyString.
Proof.
  revert n; induction s as [|c s IH]; intros [|n] H; simpl in *;
    try reflexivity.
  - exfalso; lia.
  - apply IH; lia.
Qed.

Lemma drop_zero (s : string) : JsString.drop 0 s = s.
Proof. destruct s; reflexivity. Qed.

Lemma substring_drop (n m : nat) (s : string) :
  String.append (String.substring n m s) (JsString.drop (n + m) s)
  = JsString.drop n s.
Proof.
  revert n m; induction s as [|c s IH]; intros [|n] [|m]; simpl;
    try reflexivity.
  - change (String c (String.append (String.substring 0 m s)
                                      (JsString.drop m s)) = String c s).
    f_equal. rewrite <- (drop_zero s) at 2. apply (IH 0%nat m).
  - apply (IH n 0%nat).
  - apply (IH n (S m)).
Qed.

Lemma append_empty_r (s : string) : String.append s EmptyString = s.
Proof.
  induction s as [|c s IH]; [reflexivity|].
  change (String c (String.append s EmptyString) = String c s).
  now rewrite IH.
Qed.

(** [substring] on in-range, ordered indices is the library function. *)
Lemma js_substring_in_range (s : string) (a b : Z) :
  0 <= a <= b -> b <= JsString.length s ->
  JsString.substring s a b
  = String.substring (Z.to_nat a) (Z.to_nat (b - a)) s.
Proof.
  intros Ha Hb. unfold JsString.substring, JsString.clamp.
  replace (Z.max 0 (Z.min a (JsString.length s))) with a by lia.
  replace (Z.max 0 (Z.min b (JsString.length s))) with b by lia.
  replace (Z.min a b) with a by lia.
  replace (Z.max a b) with b by lia.
  reflexivity.
Qed.

(** ** [splitStringBySize] *)

Lemma segments_ok_bounded (segsize : Z) (segs : list string) :
  Util.segments_ok segsize segs ->
  Forall (fun seg => JsString.length seg <= segsize) segs.
Proof.
  induction segs as [|seg rest IH]; intros H; constructor.
  - simpl in H. destruct rest; lia.
  - apply IH. simpl in H. destruct rest; [exact I | tauto].
Qed.

Lemma segments_ok_full (segsize : Z) (segs : list string) :
  Util.segments_ok segsize segs ->
  forall (i : nat) (seg : string),
    segs !! i = Some seg -> (S i < List.length segs)%nat ->
    JsString.length seg = segsize.
Proof.
  induction segs as [|x rest IH]; intros H i seg Hi Hlt; [discriminate|].
  simpl in H. destruct rest as [|y rest'].
  - simpl in Hlt; lia.
  - destruct H as [Hx Hrest]. destruct i as [|i]; simpl in Hi.
    + now inversion Hi; subst.
    + apply (IH Hrest i seg Hi). simpl in *; lia.
Qed.

(** The loop invariant: started at offset [c] with [dataSegs] already
    collected, the loop appends segments that spell the rest of the
    string. *)
Lemma splitLoop_spec (str : string) (segsize : Z) :
  1 <= segsize ->
  forall (fuel : nat) (c : Z) (dataSegs : list string),
    0 <= c ->
    JsString.length str - c <= Z.of_nat fuel ->
    exists segs,
      Util.splitLoop fuel str segsize (JsString.length str) c dataSegs
      = Some (dataSegs ++ segs)
      /\ JsString.join segs = JsString.drop (Z.to_nat c) str
      /\ Util.segments_ok segsize segs
      /\ (segs = [] <-> JsString.length str <= c).
Proof.
  intros Hseg. induction fuel as [|fuel IH]; intros c dataSegs Hc Hfuel.
  - exists []. simpl. destruct (Z.ltb_spec c (JsString.length str)); [lia|].
    rewrite app_nil_r. repeat split; auto.
    symmetry; apply drop_all. unfold JsString.length in *; lia.
  - simpl. destruct (Z.ltb_spec c (JsString.length str)) as [Hlt|Hge].
    + destruct (IH (c + segsize) (dataSegs ++
        [if c + segsize >? JsString.length str
         then JsString.substring str c (JsString.length str)
         else JsString.substring str c (c + segsize)]))
        as (segs & Hrun & Hjoin & Hok & Hnil); [lia | lia |].
      rewrite Hrun, <- app_assoc. simpl.
      eexists; split; [reflexivity|].
      rewrite Z.gtb_ltb.
      destruct (Z.ltb_spec (JsString.length str) (c + segsize)) as [Hlast|Hmore].
      * (* the last, possibly short, segment *)
        assert (segs = []) as -> by (apply Hnil; lia).
        rewrite js_substring_in_range by lia.
        repeat split; try discriminate.
        -- simpl. rewrite <- (substring_drop (Z.to_nat c)
             (Z.to_nat (JsString.length str - c)) str).
           f_equal. symmetry; apply drop_all.
           unfold JsString.length in *; lia.
        -- simpl. unfold JsString.length in *.
           rewrite substring_length. lia.
        -- intros; lia.
      * (* a full segment *)
        rewrite js_substring_in_range by lia.
        assert (Hlen : JsString.length (String.substring (Z.to_nat c)
                  (Z.to_nat (c + segsize - c)) str) = segsize).
        { unfold JsString.length in *. rewrite substring_length. lia. }
        repeat split; try discriminate.
        -- simpl. fold (JsString.join segs). rewrite Hjoin.
           rewrite <- (substring_drop (Z.to_nat c)
             (Z.to_nat (c + segsize - c)) str).
           do 2 f_equal. lia.
        -- simpl. destruct segs; [lia|]. split; assumption.
        -- intros; lia.
    + exists []. rewrite app_nil_r. repeat split; auto.
      symmetry; apply drop_all. unfold JsString.length in *; lia.
Qed.

(** On a whole [segsize] the sums and comparisons of the loop are
    those of whole numbers, and no index is truncated. *)
Lemma fraction_ltb_whole (a b : Z) :
  JsFraction.ltb (inject_Z a) (inject_Z b) = (a <? b).
Proof.
  unfold JsFraction.ltb, Qle_bool; cbn. rewrite !Z.mul_1_r.
  now rewrite Z.ltb_antisym.
Qed.

Lemma fraction_leb_whole (a b : Z) :
  JsFraction.leb (inject_Z a) (inject_Z b) = (a <=? b).
Proof. unfold JsFraction.leb, Qle_bool; cbn. now rewrite !Z.mul_1_r. Qed.

Lemma fraction_plus_whole (a b : Z) :
  (inject_Z a + inject_Z b)%Q = inject_Z (a + b).
Proof. unfold Qplus, inject_Z; cbn. now rewrite !Z.mul_1_r. Qed.

Lemma fraction_toInteger_whole (a : Z) : JsFraction.toInteger (inject_Z a) = a.
Proof. unfold JsFraction.toInteger; cbn. apply Z.quot_1_r. Qed.

Lemma splitLoop_whole (str : string) (segsize len : Z) :
  forall (fuel : nat) (c : Z) (dataSegs : list string),
    Util.Fractional.splitLoop fuel str (inject_Z segsize) len (inject_Z c)
      dataSegs
    = Util.splitLoop fuel str segsize len c dataSegs.
Proof.
  induction fuel as [|fuel IH]; intros c dataSegs;
    cbn [Util.Fractional.splitLoop Util.splitLoop];
    rewrite fraction_ltb_whole; [reflexivity|].
  destruct (c <? len); [|reflexivity].
  rewrite fraction_plus_whole, fraction_ltb_whole, !fraction_toInteger_whole.
  rewrite IH, Z.gtb_ltb. reflexivity.
Qed.

(** On every whole [segsize], positive or not, the two embeddings of
    [splitStringBySize] agree. *)
Lemma splitStringBySize_whole (str : string) (segsize : Z) :
  Util.Fractional.splitStringBySize str (inject_Z segsize)
  = Util.splitStringBySize str segsize.
Proof.
  unfold Util.Fractional.splitStringBySize, Util.splitStringBySize.
  rewrite fraction_leb_whole. destruct (_ <=? _); [reflexivity|].
  cbn [Qden inject_Z]. rewrite Pos2Nat.inj_1, Nat.mul_1_r.
  apply splitLoop_whole.
Qed.

(** On every size above zero, whole or not, the loop ends within the
    iterations the embedding allows it. *)
Lemma fraction_ltb_lt (x y : Q) : JsFraction.ltb x y = true <-> (x < y)%Q.
Proof.
  unfold JsFraction.ltb. rewrite negb_true_iff. split.
  - intros H. apply Qnot_le_lt. intros Hle.
    apply Qle_bool_iff in Hle. congruence.
  - intros H. destruct (Qle_bool y x) eqn:Hle; [|reflexivity].
    apply Qle_bool_iff in Hle. exfalso. apply (Qlt_not_le _ _ H Hle).
Qed.

Lemma fraction_denominator (x : Q) :
  (0 < x)%Q -> (1 <= x * inject_Z (Z.pos (Qden x)))%Q.
Proof.
  destruct x as [p q]. unfold Qlt, Qle, Qmult, inject_Z; cbn. nia.
Qed.

Lemma fractional_splitLoop_returns (str : string) (segsize : Q) (len : Z) :
  (0 < segsize)%Q ->
  forall (fuel : nat) (c : Q) (dataSegs : list string),
    ((inject_Z len - c) * inject_Z (Z.pos (Qden segsize))
     <= inject_Z (Z.of_nat fuel))%Q ->
    exists segs,
      Util.Fractional.splitLoop fuel str segsize len c dataSegs = Some segs.
Proof.
  intros Hseg. pose proof (fraction_denominator segsize Hseg) as Hstep.
  assert (Hden : (1 <= inject_Z (Z.pos (Qden segsize)))%Q).
  { unfold Qle, inject_Z; cbn. lia. }
  induction fuel as [|fuel IH]; intros c dataSegs Hfuel;
    cbn [Util.Fractional.splitLoop];
    destruct (JsFraction.ltb c (inject_Z len)) eqn:Hlt; eauto.
  - apply fraction_ltb_lt in Hlt. exfalso.
    change (inject_Z (Z.of_nat 0)) with 0%Q in Hfuel. nra.
  - apply IH. rewrite Nat2Z.inj_succ in Hfuel.
    unfold Z.succ in Hfuel. rewrite inject_Z_plus in Hfuel.
    change (inject_Z 1) with 1%Q in Hfuel. nra.
Qed.

Lemma fractional_splitStringBySize_returns (str : string) (segsize : Q) :
  (0 < segsize)%Q ->
  exists segs, Util.Fractional.splitStringBySize str segsize = Some segs.
Proof.
  intros Hseg. unfold Util.Fractional.splitStringBySize.
  destruct (JsFraction.leb _ _); [eauto|].
  apply fractional_splitLoop_returns; [exact Hseg|].
  unfold JsString.length.
  rewrite Nat2Z.inj_mul, inject_Z_mult, positive_nat_Z.
  change (inject_Z 0) with 0%Q.
  assert (0 <= inject_Z (Z.pos (Qden segsize)))%Q
    by (unfold Qle, inject_Z; cbn; lia).
  nra.
Qed.

(** C10 (as the code has it). For every string [s] and every whole
    segment size [segsize >= 1], [splitStringBySize(s, segsize)]
    returns a list of segments whose concatenation, in order, is [s];
    every segment has length at most [segsize], and every segment
    except possibly the last has length exactly [segsize]. *)
Theorem splitStringBySize_segments (s : string) (segsize : Z) :
  1 <= segsize ->
  exists segs : list string,
    Util.Fractional.splitStringBySize s (inject_Z segsize) = Some segs
    /\ JsString.join segs = s
    /\ Forall (fun seg => JsString.length seg <= segsize) segs
    /\ (forall (i : nat) (seg : string),
          segs !! i = Some seg -> (S i < List.length segs)%nat ->
          JsString.length seg = segsize).
Proof.
  intros Hseg. rewrite splitStringBySize_whole.
  unfold Util.splitStringBySize.
  destruct (Z.leb_spec (JsString.length s) segsize) as [Hshort|Hlong].
  - exists [s]. repeat split.
    + apply append_empty_r.
    + repeat constructor. assumption.
    + intros i seg _ Hi. simpl in Hi. lia.
  - destruct (splitLoop_spec s segsize Hseg (String.length s) 0 [])
      as (segs & Hrun & Hjoin & Hok & _); [lia | unfold JsString.length; lia |].
    exists segs. rewrite Hrun. repeat split.
    + rewrite Hjoin. apply drop_zero.
    + now apply segments_ok_bounded.
    + now apply segments_ok_full.
Qed.

Lemma splitStringBySize_segments_witness :
  exists segs : list string,
    Util.Fractional.splitStringBySize "abcdefg" (inject_Z 3) = Some segs
    /\ JsString.join segs = "abcdefg"
    /\ Forall (fun seg => JsString.length seg <= 3) segs
    /\ (forall (i : nat) (seg : string),
          segs !! i = Some seg -> (S i < List.length segs)%nat ->
          JsString.length seg = 3).
Proof. apply (splitStringBySize_segments "abcdefg" 3). lia. Defined.

(** On a size of two and a half the indices are truncated: the first
    segment of ['abcde'] is two characters long, which is not the size,
    and the second is three characters long, which is more than the
    size. *)
Example splitStringBySize_two_and_a_half :
  Util.Fractional.splitStringBySize "abcde" (5 # 2) = Some ["ab"; "cde"].
Proof. reflexivity. Qed.

(** Not for every segment size [segsize >= 1] does the result have
    the lengths of C10: the sizes that are not whole numbers are among
    them, and [substring] truncates its indices. *)
Lemma splitStringBySize_fractional_size :
  ~ forall (s : string) (segsize : Q),
      (1 <= segsize)%Q ->
      exists segs : list string,
        Util.Fractional.splitStringBySize s segsize = Some segs
        /\ JsString.join segs = s
        /\ Forall (fun seg => (inject_Z (JsString.length seg) <= segsize)%Q)
                  segs
        /\ (forall (i : nat) (seg : string),
              segs !! i = Some seg -> (S i < List.length segs)%nat ->
              (inject_Z (JsString.length seg) == segsize)%Q).
Proof.
  intros Hclaim.
  destruct (Hclaim "abcde" (5 # 2)) as (segs & Hrun & _ & Hmost & Hfull);
    [discriminate|].
  rewrite splitStringBySize_two_and_a_half in Hrun.
  injection Hrun as <-.
  specialize (Hfull 0%nat "ab" eq_refl). cbn in Hfull.
  assert (Hab : (inject_Z 2 == 5 # 2)%Q) by (apply Hfull; lia).
  discriminate Hab.
Qed.

(** Each of the two clauses on lengths fails on that input. *)
Example splitStringBySize_fractional_lengths :
  ~ Forall (fun seg => (inject_Z (JsString.length seg) <= 5 # 2)%Q)
           ["ab"; "cde"]
  /\ ~ (inject_Z (JsString.length "ab") == 5 # 2)%Q.
Proof.
  split.
  - intros H. apply Forall_cons in H as [_ H]. apply Forall_cons in H as [H _].
    now apply H.
  - discriminate.
Qed.

Example splitStringBySize_abcdefg :
  Util.splitStringBySize "abcdefg" 3 = Some ["abc"; "def"; "g"].
Proof. reflexivity. Qed.

(** With a segment size of zero the source loop does not advance. *)
Example splitStringBySize_zero_diverges :
  Util.splitStringBySize "ab" 0 = None.
Proof. reflexivity. Qed.

(** ** [RequestInfo] *)

Section RequestInfoFacts.
Context {env : Storage.Env}.

(** C5. For every url, method, handler and timeout, a newly constructed
    [RequestInfo] has [successCodes] equal to the singleton [200], no
    [additionalRetryCodes], empty [headers] and [urlParams], a null
    [body], no [errorHandler] and no [progressCallback]. *)
Theorem new_RequestInfo_defaults (T : Type) (url method : string)
    (handler : Storage.Connection -> string -> Storage.Completion T)
    (timeout : Z) :
  let r := Storage.new_RequestInfo url method handler timeout in
  Storage.successCodes r = [200]
  /\ Storage.additionalRetryCodes r = []
  /\ Storage.headers r = ∅
  /\ Storage.urlParams r = ∅
  /\ Storage.body r = None
  /\ Storage.errorHandler r = None
  /\ Storage.progressCallback r = None.
Proof. repeat split. Qed.

Lemma write_url_method (T : Type) (f : Storage.FieldWrite T)
    (r : Storage.RequestInfo T) :
  Storage.url (Storage.write f r) = Storage.url r
  /\ Storage.method (Storage.write f r) = Storage.method r.
Proof. destruct f; split; reflexivity. Qed.

(** One statement leaves [url] and [method] of every instance alone. *)
Lemma exec_url_method (T : Type) (s : Storage.Stmt T)
    (heap : list (Storage.RequestInfo T)) (a : nat)
    (r : Storage.RequestInfo T) :
  heap !! a = Some r ->
  exists r', Storage.exec s heap !! a = Some r'
             /\ Storage.url r' = Storage.url r
             /\ Storage.method r' = Storage.method r.
Proof.
  intros Ha. destruct s as [u m h t | a' f]; simpl.
  - exists r. split; [|split; reflexivity].
    apply lookup_app_l_Some. exact Ha.
  - destruct (heap !! a') as [r0|] eqn:Ha'; [|eauto].
    destruct (decide (a' = a)) as [->|Hne].
    + rewrite Ha in Ha'. inversion Ha'; subst r0.
      exists (Storage.write f r). split.
      * apply list_lookup_insert_eq. eapply lookup_lt_Some; eauto.
      * apply write_url_method.
    + exists r. split; [|split; reflexivity].
      rewrite list_lookup_insert_ne; auto.
Qed.

Lemma run_url_method (T : Type) (prog : list (Storage.Stmt T)) :
  forall (heap : list (Storage.RequestInfo T)) (a : nat)
         (r : Storage.RequestInfo T),
    heap !! a = Some r ->
    exists r', Storage.run prog heap !! a = Some r'
               /\ Storage.url r' = Storage.url r
               /\ Storage.method r' = Storage.method r.
Proof.
  induction prog as [|s prog IH]; intros heap a r Ha.
  - exists r. auto.
  - destruct (exec_url_method T s heap a r Ha) as (r1 & H1 & Hu & Hm).
    destruct (IH _ _ _ H1) as (r2 & H2 & Hu2 & Hm2).
    exists r2. split; [exact H2|]. split; congruence.
Qed.

(** C7. The [url] and [method] of a [RequestInfo] are never mutated
    after construction: whatever the program does after
    [new RequestInfo(url, method, handler, timeout)] (constructing
    further instances, assigning fields of this or of other instances),
    the instance still holds the constructor's [url] and [method]. *)
Theorem RequestInfo_url_method_fixed (T : Type)
    (heap : list (Storage.RequestInfo T)) (url method : string)
    (handler : Storage.Connection -> string -> Storage.Completion T)
    (timeout : Z) (prog : list (Storage.Stmt T)) :
  exists r,
    Storage.run (Storage.New url method handler timeout :: prog) heap
      !! List.length heap = Some r
    /\ Storage.url r = url
    /\ Storage.method r = method.
Proof.
  change (Storage.run (Storage.New url method handler timeout :: prog) heap)
    with (Storage.run prog
            (heap ++ [Storage.new_RequestInfo url method handler timeout])).
  apply (run_url_method T prog _ (List.length heap)
           (Storage.new_RequestInfo url method handler timeout)).
  apply list_lookup_middle. reflexivity.
Qed.

End RequestInfoFacts.

(** A write to a defaulted field is seen through the address, and the
    address still names the constructor's [url]. *)
Example RequestInfo_write_then_read :
  (fun r : @Storage.RequestInfo Scripted.env unit =>
     (Storage.url r, Storage.successCodes r))
    <$> (Storage.run (env := Scripted.env) (T := unit)
           [ Storage.New "u" "GET" (fun _ _ => Storage.Returned tt) 0;
             Storage.Assign 0%nat (Storage.WriteSuccessCodes [200; 204]) ]
           [] !! 0%nat)
  = Some ("u", [200; 204]).
Proof. reflexivity. Qed.

(** ** [reference.ts] *)

Section ReferenceFacts.
Context {env : Storage.Env} {collaborators : Storage.Collaborators}.

Lemma throwIfRoot_root (ref : Storage.Reference) (name : string)
    (w : Storage.World) :
  Storage.path (Storage._location ref) = "" ->
  Storage._throwIfRoot ref name w
  = (Storage.Thrown (Storage.invalidRootOperation name), w).
Proof.
  intros Hroot. unfold Storage._throwIfRoot.
  destruct (decide (Storage.path (Storage._location ref) = ""));
    [reflexivity | contradiction].
Qed.

Lemma throwIfRoot_object (ref : Storage.Reference) (name : string)
    (w : Storage.World) :
  Storage.path (Storage._location ref) <> "" ->
  Storage._throwIfRoot ref name w = (Storage.Returned tt, w).
Proof.
  intros Hobj. unfold Storage._throwIfRoot.
  destruct (decide (Storage.path (Storage._location ref) = ""));
    [contradiction | reflexivity].
Qed.

(** A computation that starts with a failing guard is the failure. *)
Lemma bind_thrown (A B : Type) (m : Storage.M A) (k : A -> Storage.M B)
    (e : Storage.StorageError) (w w' : Storage.World) :
  m w = (Storage.Thrown e, w') ->
  Storage.bind m k w = (Storage.Thrown e, w').
Proof. intros H. unfold Storage.bind. now rewrite H. Qed.

Lemma bind_returned (A B : Type) (m : Storage.M A) (k : A -> Storage.M B)
    (a : A) (w w' : Storage.World) :
  m w = (Storage.Returned a, w') ->
  Storage.bind m k w = k a w'.
Proof. intros H. unfold Storage.bind. now rewrite H. Qed.

(** C3. Each operation that does not accept a root reference
    ([uploadBytes], [uploadBytesResumable], [uploadString],
    [getMetadata], [updateMetadata], [getDownloadURL], [deleteObject]),
    called on a reference whose location path is the empty string,
    throws the invalid-root-operation error synchronously and leaves
    the world as it was: no request has been built, none issued, and
    later calls find nothing changed.  On any other reference the guard
    returns and changes nothing. *)
Theorem root_reference_rejected (ref : Storage.Reference)
    (w : Storage.World) :
  (Storage.path (Storage._location ref) = "" ->
   (forall data metadata,
       Storage.uploadBytes ref data metadata w
       = (Storage.Thrown (Storage.invalidRootOperation "uploadBytes"), w))
   /\ (forall data metadata,
       Storage.uploadBytesResumable ref data metadata w
       = (Storage.Thrown
            (Storage.invalidRootOperation "uploadBytesResumable"), w))
   /\ (forall value format metadata,
       Storage.uploadString ref value format metadata w
       = (Storage.Thrown (Storage.invalidRootOperation "uploadString"), w))
   /\ Storage.getMetadata ref w
      = (Storage.Thrown (Storage.invalidRootOperation "getMetadata"), w)
   /\ (forall metadata,
       Storage.updateMetadata ref metadata w
       = (Storage.Thrown (Storage.invalidRootOperation "updateMetadata"), w))
   /\ Storage.getDownloadURL ref w
      = (Storage.Thrown (Storage.invalidRootOperation "getDownloadURL"), w)
   /\ Storage.deleteObject ref w
      = (Storage.Thrown (Storage.invalidRootOperation "deleteObject"), w))
  /\ (Storage.path (Storage._location ref) <> "" ->
      forall name, Storage._throwIfRoot ref name w = (Storage.Returned tt, w)).
Proof.
  split.
  - intros Hroot.
    repeat split; intros;
      apply bind_thrown; apply throwIfRoot_root; exact Hroot.
  - intros Hobject name. now apply throwIfRoot_object.
Qed.

(** The reference that [get root()] returns is a root reference. *)
Lemma root_getMetadata_rejected (ref : Storage.Reference)
    (w : Storage.World) :
  Storage.getMetadata (Storage.root ref) w
  = (Storage.Thrown (Storage.invalidRootOperation "getMetadata"), w).
Proof. apply bind_thrown. now apply throwIfRoot_root. Qed.

(** What [list] does once its validation has passed. *)
Lemma list_request (ref : Storage.Reference)
    (options : Js.Opt Storage.ListOptions) (w : Storage.World) :
  Storage.maxResultsOutOfRange options = false ->
  Storage.list ref options w
  = (Storage.Returned
       (fst (Storage.makeRequestWithTokens Storage.ListResult
               (Storage.storage ref)
               (Storage.requestsList (Storage.storage ref)
                  (Storage._location ref) "/"
                  (Storage.pageToken (Storage.optionsOrEmpty options))
                  (Storage.maxResults (Storage.optionsOrEmpty options)))
               Storage.newConnection (Storage.net w))),
     {| Storage.net :=
          snd (Storage.makeRequestWithTokens Storage.ListResult
                 (Storage.storage ref)
                 (Storage.requestsList (Storage.storage ref)
                    (Storage._location ref) "/"
                    (Storage.pageToken (Storage.optionsOrEmpty options))
                    (Storage.maxResults (Storage.optionsOrEmpty options)))
                 Storage.newConnection (Storage.net w));
        Storage.trace :=
          Storage.trace w ++
          [ Storage.RequestBuilt
              (Storage.CallList (Storage._location ref) "/"
                 (Storage.pageToken (Storage.optionsOrEmpty options))
                 (Storage.maxResults (Storage.optionsOrEmpty options)));
            Storage.RequestIssued Storage.ListResult
              (Storage.requestsList (Storage.storage ref)
                 (Storage._location ref) "/"
                 (Storage.pageToken (Storage.optionsOrEmpty options))
                 (Storage.maxResults (Storage.optionsOrEmpty options))) ];
        Storage.pending := Storage.pending w;
        Storage.peak := Storage.peak w |}).
Proof.
  intros Hok. unfold Storage.list.
  assert (Hvalid :
    match options with
    | Js.Defined o =>
        match Storage.maxResults o with
        | Js.VNumber n => Storage.validateNumber "options.maxResults" 1 1000 n
        | _ => Storage.ret tt
        end
    | _ => Storage.ret tt
    end w = (Storage.Returned tt, w)).
  { destruct options as [| |o]; try reflexivity.
    simpl in Hok. destruct (Storage.maxResults o); try reflexivity.
    unfold Storage.validateNumber.
    apply negb_false_iff, andb_true_iff in Hok as [H1 H2].
    apply Z.leb_le in H1, H2.
    destruct (Z.ltb_spec n 1); [lia|].
    destruct (Z.ltb_spec 1000 n); [lia|]. reflexivity. }
  rewrite (bind_returned _ _ _ _ tt w w Hvalid).
  unfold Storage.bind, Storage.emit, Storage.makeRequest,
    Storage.emitEvent, Storage.setNet; simpl.
  destruct (Storage.makeRequestWithTokens _ _ _ _ _) as [p n]; simpl.
  now rewrite <- app_assoc.
Qed.

(** C6. When [options.maxResults] is a number outside [1, 1000],
    [list] throws synchronously and nothing has been built or issued;
    when the options are absent, or [maxResults] is absent, not a
    number, or within [1, 1000], [list] returns its promise after
    building and issuing exactly the list request. *)
Theorem list_validates_maxResults (ref : Storage.Reference)
    (options : Js.Opt Storage.ListOptions) (w : Storage.World) :
  if Storage.maxResultsOutOfRange options
  then exists e, Storage.list ref options w = (Storage.Thrown e, w)
  else exists p w',
      Storage.list ref options w = (Storage.Returned p, w')
      /\ Storage.trace w'
         = Storage.trace w ++
           [ Storage.RequestBuilt
               (Storage.CallList (Storage._location ref) "/"
                  (Storage.pageToken (Storage.optionsOrEmpty options))
                  (Storage.maxResults (Storage.optionsOrEmpty options)));
             Storage.RequestIssued Storage.ListResult
               (Storage.requestsList (Storage.storage ref)
                  (Storage._location ref) "/"
                  (Storage.pageToken (Storage.optionsOrEmpty options))
                  (Storage.maxResults (Storage.optionsOrEmpty options))) ].
Proof.
  destruct (Storage.maxResultsOutOfRange options) eqn:Hrange.
  - destruct options as [| |o]; try discriminate. simpl in Hrange.
    destruct (Storage.maxResults o) as [| | |n| |] eqn:Hmax; try discriminate.
    exists (Storage.invalidArgument "options.maxResults").
    unfold Storage.list. apply bind_thrown. rewrite Hmax.
    unfold Storage.validateNumber.
    apply negb_true_iff, andb_false_iff in Hrange.
    destruct (Z.ltb_spec n 1); [reflexivity|].
    destruct (Z.ltb_spec 1000 n); [reflexivity|].
    destruct Hrange as [H1|H1]; apply Z.leb_gt in H1; lia.
  - rewrite (list_request ref options w Hrange). eauto.
Qed.

(** C8. [getDownloadURL] never resolves with [null]: when the request
    resolves with a null URL the returned promise rejects with the
    no-download-URL error, and when it resolves with a string the
    promise resolves with that string. *)
Theorem getDownloadURL_never_null (ref : Storage.Reference)
    (w : Storage.World) :
  (forall w', Storage.getDownloadURL ref w
              <> (Storage.Returned (Storage.Fulfilled None), w'))
  /\ (forall url n',
      Storage.path (Storage._location ref) <> "" ->
      Storage.makeRequestWithTokens (option string) (Storage.storage ref)
        (Storage.requestsGetDownloadUrl (Storage.storage ref)
           (Storage._location ref) Storage.getMappings)
        Storage.newConnection (Storage.net w) = (Storage.Fulfilled url, n') ->
      exists w',
        Storage.net w' = n'
        /\ Storage.getDownloadURL ref w
           = (Storage.Returned
                match url with
                | None => Storage.Rejected Storage.noDownloadURL
                | Some u => Storage.Fulfilled (Some u)
                end, w')).
Proof.
  split.
  - intros w'. unfold Storage.getDownloadURL.
    destruct (decide (Storage.path (Storage._location ref) = "")) as [Hr|Ho].
    + rewrite (bind_thrown _ _ _ _ _ w w (throwIfRoot_root ref _ w Hr)).
      discriminate.
    + rewrite (bind_returned _ _ _ _ tt w w (throwIfRoot_object ref _ w Ho)).
      unfold Storage.bind, Storage.emit, Storage.makeRequest, Storage.ret.
      simpl. destruct (Storage.makeRequestWithTokens _ _ _ _ _) as [p n].
      destruct p as [[u|]|e]; simpl; intros H; inversion H.
  - intros url n' Ho Hreq. unfold Storage.getDownloadURL.
    rewrite (bind_returned _ _ _ _ tt w w (throwIfRoot_object ref _ w Ho)).
    unfold Storage.bind, Storage.emit, Storage.makeRequest, Storage.ret.
    simpl. rewrite Hreq. eexists; split; [|destruct url; reflexivity].
    reflexivity.
Qed.

End ReferenceFacts.

(** ** [listAll] *)

Section ListAllFacts.
Context {env : Storage.Env} {collaborators : Storage.Collaborators}.

(** The [list] call of [listAllHelper]: no [maxResults], so nothing is
    validated, and the request is built from the page token alone. *)
Lemma list_page (ref : Storage.Reference) (pageToken : Js.Opt string)
    (w : Storage.World) :
  Storage.list ref
    (Js.Defined {| Storage.maxResults := Js.VUndefined;
                   Storage.pageToken := pageToken |}) w
  = (Storage.Returned
       (fst (Storage.makeRequestWithTokens Storage.ListResult
               (Storage.storage ref)
               (Storage.requestsList (Storage.storage ref)
                  (Storage._location ref) "/" pageToken Js.VUndefined)
               Storage.newConnection (Storage.net w))),
     {| Storage.net :=
          snd (Storage.makeRequestWithTokens Storage.ListResult
                 (Storage.storage ref)
                 (Storage.requestsList (Storage.storage ref)
                    (Storage._location ref) "/" pageToken Js.VUndefined)
                 Storage.newConnection (Storage.net w));
        Storage.trace := Storage.trace w ++ Storage.listRequest ref pageToken;
        Storage.pending := Storage.pending w;
        Storage.peak := Storage.peak w |}).
Proof. now rewrite list_request. Qed.

Lemma World_eq (n n' : Storage.Net) (t t' : list Storage.Event)
    (p p' k k' : nat) :
  n = n' -> t = t' -> p = p' -> k = k' ->
  {| Storage.net := n; Storage.trace := t;
     Storage.pending := p; Storage.peak := k |}
  = {| Storage.net := n'; Storage.trace := t';
       Storage.pending := p'; Storage.peak := k' |}.
Proof. congruence. Qed.

Ltac unfold_world :=
  unfold Storage.leave, Storage.emitEvent, Storage.enter, Storage.setNet;
  cbn [Storage.net Storage.trace Storage.pending Storage.peak Nat.pred].

Lemma foldl_pushPage (pages : list Storage.ListResult) :
  forall accumulator : Storage.ListResult,
    foldl Storage.pushPage accumulator pages
    = {| Storage.prefixes :=
           Storage.prefixes accumulator
           ++ concat (map Storage.prefixes pages);
         Storage.items :=
           Storage.items accumulator ++ concat (map Storage.items pages);
         Storage.nextPageToken := Storage.nextPageToken accumulator |}.
Proof.
  induction pages as [|page pages IH]; intros [ps its tok]; simpl.
  - now rewrite !app_nil_r.
  - rewrite IH. simpl. now rewrite <- !app_assoc.
Qed.

(** A run against a scripted network: the helper resolves, the
    accumulator has received every page in order, the events are those
    of the pages, and there have been as many activations at once as
    there are pages. *)
Lemma listAllHelper_serves (ref : Storage.Reference)
    (pageToken : Js.Opt string) (n : Storage.Net)
    (pages : list Storage.ListResult) (n' : Storage.Net) :
  Storage.Serves ref pageToken n pages n' ->
  forall (fuel : nat) (accumulator : Storage.ListResult) (w : Storage.World),
    Storage.net w = n ->
    (List.length pages <= fuel)%nat ->
    Storage.listAllHelper fuel ref accumulator pageToken w
    = Some (Storage.Fulfilled tt,
            foldl Storage.pushPage accumulator pages,
            {| Storage.net := n';
               Storage.trace :=
                 Storage.trace w ++ Storage.pagesTrace ref pageToken pages;
               Storage.pending := Storage.pending w;
               Storage.peak :=
                 Nat.max (Storage.peak w)
                         (Storage.pending w + List.length pages) |}).
Proof.
  induction 1 as [tok n page n' Hreq Hlast
                 |tok n page token n' pages n'' Hreq Htoken Hrest IH];
    intros [|fuel] accumulator w Hnet Hfuel; simpl in Hfuel; try lia;
    cbn [Storage.listAllHelper]; rewrite list_page;
    cbn [Storage.net Storage.enter]; rewrite Hnet, Hreq;
    cbn [fst snd].
  - destruct (Storage.nextPageToken page); try discriminate;
      cbn; do 2 f_equal; apply World_eq; unfold_world;
      first [reflexivity | now rewrite <- app_assoc | lia].
  - rewrite Htoken.
    rewrite (IH fuel (Storage.pushPage accumulator page))
      by (unfold_world; reflexivity || lia).
    cbn. rewrite Htoken. do 2 f_equal.
    apply World_eq; unfold_world;
      first [reflexivity | now rewrite <- !app_assoc | lia].
Qed.

(** Every run that ends, however it ends, has one of the shapes of
    [ListRun]. *)
Lemma listAllHelper_run (ref : Storage.Reference) :
  forall (fuel : nat) (accumulator : Storage.ListResult)
         (pageToken : Js.Opt string) (w : Storage.World)
         (p : Storage.Promise unit) (accumulator' : Storage.ListResult)
         (w' : Storage.World),
    Storage.listAllHelper fuel ref accumulator pageToken w
    = Some (p, accumulator', w') ->
    exists events,
      Storage.trace w' = Storage.trace w ++ events
      /\ Storage.ListRun ref pageToken events.
Proof.
  induction fuel as [|fuel IH]; intros accumulator tok w p acc' w' Hrun;
    [discriminate|].
  cbn [Storage.listAllHelper] in Hrun. rewrite list_page in Hrun.
  destruct (Storage.makeRequestWithTokens _ _ _ _ _) as [[page|e] n];
    cbn [fst snd] in Hrun.
  - destruct (Storage.nextPageToken page) as [| |token] eqn:Htoken.
    1,2: inversion Hrun; subst; cbn;
      exists (Storage.listRequest ref tok ++ [Storage.PageReceived page]);
      split; [now rewrite <- app_assoc
             | apply Storage.run_last; now rewrite Htoken].
    destruct (Storage.listAllHelper fuel ref _ _ _)
      as [[[q acc1] w1]|] eqn:Hinner; [|discriminate].
    inversion Hrun; subst.
    destruct (IH _ _ _ _ _ _ Hinner) as (events & Htrace & Hshape).
    exists (Storage.listRequest ref tok ++ Storage.PageReceived page :: events).
    split.
    + cbn in *. rewrite Htrace. rewrite <- !app_assoc. reflexivity.
    + now apply Storage.run_next with token.
  - inversion Hrun; subst. exists (Storage.listRequest ref tok).
    split; [reflexivity | apply Storage.run_failed].
Qed.

(** Every run starts with its request, followed by nothing or by the
    page that answers it. *)
Lemma ListRun_head (ref : Storage.Reference) (pageToken : Js.Opt string)
    (events : list Storage.Event) :
  Storage.ListRun ref pageToken events ->
  exists rest,
    events = Storage.listRequest ref pageToken ++ rest
    /\ (rest = [] \/ exists page rest', rest = Storage.PageReceived page :: rest').
Proof.
  destruct 1.
  - exists []. rewrite app_nil_r. auto.
  - eexists; split; [reflexivity|]. right; eauto.
  - eexists; split; [reflexivity|]. right; eauto.
Qed.

(** A page is never one of the two events of a request. *)
Lemma page_after_request (ref : Storage.Reference)
    (pageToken : Js.Opt string) (tail before after : list Storage.Event)
    (page : Storage.ListResult) :
  Storage.listRequest ref pageToken ++ tail
  = before ++ Storage.PageReceived page :: after ->
  exists before', tail = before' ++ Storage.PageReceived page :: after.
Proof.
  unfold Storage.listRequest; cbn. intros Heq.
  destruct before as [|b1 before]; [discriminate|].
  destruct before as [|b2 before]; [discriminate|].
  inversion Heq. eauto.
Qed.

(** Where a page sits in a run, the rest of the run is decided by the
    page's token. *)
Lemma ListRun_tokens (ref : Storage.Reference) (pageToken : Js.Opt string)
    (events : list Storage.Event) :
  Storage.ListRun ref pageToken events ->
  forall before page after,
    events = before ++ Storage.PageReceived page :: after ->
    match Storage.nextPageToken page with
    | Js.Defined token =>
        exists rest,
          after = Storage.listRequest ref (Js.Defined token) ++ rest
          /\ (rest = []
              \/ exists page' rest', rest = Storage.PageReceived page' :: rest')
    | _ => after = []
    end.
Proof.
  induction 1 as [tok | tok page0 Hlast | tok page0 token events Htoken Hrun IH];
    intros before page after Heq.
  - rewrite <- (app_nil_r (Storage.listRequest ref tok)) in Heq.
    apply page_after_request in Heq as (before' & Heq).
    destruct before'; discriminate.
  - apply page_after_request in Heq as (before' & Heq).
    destruct before' as [|b before'].
    + inversion Heq; subst.
      destruct (Storage.nextPageToken page); try discriminate; reflexivity.
    + inversion Heq. destruct before'; discriminate.
  - apply page_after_request in Heq as (before' & Heq).
    destruct before' as [|b before'].
    + inversion Heq; subst. rewrite Htoken. now apply ListRun_head.
    + inversion Heq; subst. eapply IH. reflexivity.
Qed.

(** C1. For every finite scripted sequence of list pages, [listAll]
    resolves with an accumulator whose [items] are the concatenation of
    the pages' items in page order, whose [prefixes] are the
    concatenation of the pages' prefixes in page order, and on which no
    [nextPageToken] is set. *)
Theorem listAll_concatenates_pages (ref : Storage.Reference)
    (pages : list Storage.ListResult) (w : Storage.World)
    (n' : Storage.Net) (fuel : nat) :
  Storage.Serves ref Js.Undefined (Storage.net w) pages n' ->
  (List.length pages <= fuel)%nat ->
  exists w',
    Storage.listAll fuel ref w
    = Some (Storage.Fulfilled
              {| Storage.prefixes := concat (map Storage.prefixes pages);
                 Storage.items := concat (map Storage.items pages);
                 Storage.nextPageToken := Js.Undefined |}, w').
Proof.
  intros Hserves Hfuel. unfold Storage.listAll.
  rewrite (listAllHelper_serves ref _ _ _ _ Hserves fuel _ w eq_refl Hfuel).
  rewrite foldl_pushPage. cbn. eauto.
Qed.

(** The events of any run that ends, as the helper records them: the
    first list request carries no page token; a page recorded with a
    token is followed by one list request built from that token, after
    which the run ends or the next page is recorded; and a page
    recorded without a token is the last event. *)
Lemma listAll_run_shape (fuel : nat) (ref : Storage.Reference)
    (w : Storage.World) (p : Storage.Promise Storage.ListResult)
    (w' : Storage.World) :
  Storage.listAll fuel ref w = Some (p, w') ->
  exists events,
    Storage.trace w' = Storage.trace w ++ events
    /\ (exists rest, events = Storage.listRequest ref Js.Undefined ++ rest)
    /\ forall before page after,
        events = before ++ Storage.PageReceived page :: after ->
        match Storage.nextPageToken page with
        | Js.Defined token =>
            exists rest,
              after = Storage.listRequest ref (Js.Defined token) ++ rest
              /\ (rest = []
                  \/ exists page' rest',
                      rest = Storage.PageReceived page' :: rest')
        | _ => after = []
        end.
Proof.
  unfold Storage.listAll. intros Hrun.
  destruct (Storage.listAllHelper fuel ref _ _ w)
    as [[[q accumulator] w1]|] eqn:Hhelper; [|discriminate].
  inversion Hrun; subst.
  destruct (listAllHelper_run ref _ _ _ _ _ _ _ Hhelper)
    as (events & Htrace & Hshape).
  exists events. split; [exact Htrace|]. split.
  - destruct (ListRun_head ref _ _ Hshape) as (rest & -> & _). eauto.
  - exact (ListRun_tokens ref _ _ Hshape).
Qed.

(** A request is one call of the builder and one request issued, and
    neither is a page. *)
Lemma outgoing_listRequest (ref : Storage.Reference)
    (pageToken : Js.Opt string) (events : list Storage.Event) :
  Storage.outgoing (Storage.listRequest ref pageToken ++ events)
  = Storage.listRequest ref pageToken ++ Storage.outgoing events.
Proof. reflexivity. Qed.

(** The helper against a network that answers with [responses]: it
    settles, it has asked the network for nothing else, and the
    requests it has made are one for its own page token and one for
    the token of every page that carries one. *)
Lemma listAllHelper_answers (ref : Storage.Reference)
    (pageToken : Js.Opt string) (n : Storage.Net)
    (responses : list (Storage.Promise Storage.ListResult))
    (n' : Storage.Net) :
  Storage.Answers ref pageToken n responses n' ->
  forall (fuel : nat) (accumulator : Storage.ListResult) (w : Storage.World),
    Storage.net w = n ->
    (List.length responses <= fuel)%nat ->
    exists p accumulator' w' events tokens,
      Storage.listAllHelper fuel ref accumulator pageToken w
      = Some (p, accumulator', w')
      /\ Storage.net w' = n'
      /\ Storage.trace w' = Storage.trace w ++ events
      /\ Storage.outgoing events
         = concat (map (Storage.listRequest ref) (pageToken :: tokens))
      /\ S (List.length tokens) = List.length responses
      /\ (forall (i : nat) (page : Storage.ListResult),
            responses !! i = Some (Storage.Fulfilled page) ->
            match Storage.nextPageToken page with
            | Js.Defined token => tokens !! i = Some (Js.Defined token)
            | _ => tokens !! i = None
            end)
      /\ (forall (i : nat) (e : Storage.StorageError),
            responses !! i = Some (Storage.Rejected e) -> tokens !! i = None).
Proof.
  induction 1 as [tok n e n' Hreq
                 |tok n page n' Hreq Hlast
                 |tok n page token n' responses n'' Hreq Htoken Hrest IH];
    intros [|fuel] accumulator w Hnet Hfuel; simpl in Hfuel; try lia;
    cbn [Storage.listAllHelper]; rewrite list_page;
    cbn [Storage.net Storage.enter]; rewrite Hnet, Hreq;
    cbn [fst snd].
  - (* the request fails *)
    exists (Storage.Rejected e), accumulator. eexists.
    exists (Storage.listRequest ref tok), [].
    split; [reflexivity|]. unfold_world.
    do 4 (split; [reflexivity|]). split.
    + intros [|i] page Hi; [discriminate | destruct i; discriminate].
    + intros i e' _. apply lookup_nil.
  - (* a page without a token *)
    exists (Storage.Fulfilled tt), (Storage.pushPage accumulator page).
    eexists.
    exists (Storage.listRequest ref tok ++ [Storage.PageReceived page]), [].
    split; [destruct (Storage.nextPageToken page);
            [reflexivity | reflexivity | discriminate]|].
    unfold_world.
    split; [reflexivity|]. split; [now rewrite <- app_assoc|].
    do 2 (split; [reflexivity|]). split.
    + intros [|i] page' Hi.
      * injection Hi as <-.
        destruct (Storage.nextPageToken page);
          [reflexivity | reflexivity | discriminate].
      * destruct i; discriminate.
    + intros i e' _. apply lookup_nil.
  - (* a page with a token, and the nested call *)
    rewrite Htoken.
    match goal with
    | |- context [Storage.listAllHelper fuel ref ?acc _ ?w1] =>
        destruct (IH fuel acc w1)
          as (p & accumulator' & w' & events & tokens
              & Hrun & Hnet' & Htrace & Hout & Hcount & Hpages & Hfailed);
          [reflexivity | lia |]
    end.
    rewrite Hrun.
    exists p, accumulator', (Storage.leave w').
    exists (Storage.listRequest ref tok ++ Storage.PageReceived page :: events).
    exists (Js.Defined token :: tokens).
    split; [reflexivity|]. unfold_world.
    split; [exact Hnet'|].
    split; [rewrite Htrace; unfold_world; now rewrite <- !app_assoc|].
    split; [rewrite outgoing_listRequest; cbn [map concat];
            f_equal; exact Hout|].
    split; [simpl; now rewrite Hcount|]. split.
    + intros [|i] page' Hi.
      * injection Hi as <-. now rewrite Htoken.
      * apply (Hpages i page' Hi).
    + intros [|i] e Hi; [discriminate | apply (Hfailed i e Hi)].
Qed.

(** Every run that ends has been answered in this way: the condition
    on the network in the theorem that follows leaves no ended run
    out. *)
Lemma listAllHelper_answered (ref : Storage.Reference) :
  forall (fuel : nat) (accumulator : Storage.ListResult)
         (pageToken : Js.Opt string) (w : Storage.World)
         (p : Storage.Promise unit) (accumulator' : Storage.ListResult)
         (w' : Storage.World),
    Storage.listAllHelper fuel ref accumulator pageToken w
    = Some (p, accumulator', w') ->
    exists responses,
      Storage.Answers ref pageToken (Storage.net w) responses (Storage.net w')
      /\ (List.length responses <= fuel)%nat.
Proof.
  induction fuel as [|fuel IH]; intros accumulator tok w p acc' w' Hrun;
    [discriminate|].
  cbn [Storage.listAllHelper] in Hrun. rewrite list_page in Hrun.
  cbn [Storage.net Storage.enter] in Hrun.
  destruct (Storage.makeRequestWithTokens _ _ _ _ _) as [[page|e] n] eqn:Hreq;
    cbn [fst snd] in Hrun.
  - destruct (Storage.nextPageToken page) as [| |token] eqn:Htoken.
    1,2: inversion Hrun; subst; exists [Storage.Fulfilled page];
      (split; [|simpl; lia]); cbn;
      apply Storage.answers_last; [exact Hreq | now rewrite Htoken].
    destruct (Storage.listAllHelper fuel ref _ _ _)
      as [[[q acc1] w1]|] eqn:Hinner; [|discriminate].
    inversion Hrun; subst.
    destruct (IH _ _ _ _ _ _ Hinner) as (responses & Hanswers & Hlen).
    exists (Storage.Fulfilled page :: responses).
    split; [|simpl; lia].
    cbn in Hanswers |- *. eapply Storage.answers_next; eauto.
  - inversion Hrun; subst. exists [Storage.Rejected e].
    split; [|simpl; lia]. cbn. now apply Storage.answers_failed.
Qed.

Lemma listAll_answered (fuel : nat) (ref : Storage.Reference)
    (w : Storage.World) (p : Storage.Promise Storage.ListResult)
    (w' : Storage.World) :
  Storage.listAll fuel ref w = Some (p, w') ->
  exists responses,
    Storage.Answers ref Js.Undefined (Storage.net w) responses (Storage.net w')
    /\ (List.length responses <= fuel)%nat.
Proof.
  unfold Storage.listAll. intros Hrun.
  destruct (Storage.listAllHelper fuel ref _ _ w)
    as [[[q accumulator] w1]|] eqn:Hhelper; [|discriminate].
  inversion Hrun; subst.
  exact (listAllHelper_answered ref _ _ _ _ _ _ _ Hhelper).
Qed.

(** C2. During a [listAll] run against a network that answers the
    list requests with [responses], one after the other, the requests
    made are list requests, as many as there are responses, and the
    first carries no page token; every page response whose
    [nextPageToken] is a string is followed by exactly one further
    list request, built from that very token; and after a page
    response whose token is absent ([null] or [undefined]), as after a
    failure, no further request is made. *)
Theorem listAll_follows_tokens (ref : Storage.Reference)
    (responses : list (Storage.Promise Storage.ListResult))
    (w : Storage.World) (n' : Storage.Net) (fuel : nat) :
  Storage.Answers ref Js.Undefined (Storage.net w) responses n' ->
  (List.length responses <= fuel)%nat ->
  exists p w' events tokens,
    Storage.listAll fuel ref w = Some (p, w')
    /\ Storage.net w' = n'
    /\ Storage.trace w' = Storage.trace w ++ events
    /\ Storage.outgoing events = concat (map (Storage.listRequest ref) tokens)
    /\ List.length tokens = List.length responses
    /\ tokens !! 0%nat = Some Js.Undefined
    /\ (forall (i : nat) (page : Storage.ListResult),
          responses !! i = Some (Storage.Fulfilled page) ->
          match Storage.nextPageToken page with
          | Js.Defined token => tokens !! S i = Some (Js.Defined token)
          | _ => tokens !! S i = None
          end)
    /\ (forall (i : nat) (e : Storage.StorageError),
          responses !! i = Some (Storage.Rejected e) -> tokens !! S i = None).
Proof.
  intros Hanswers Hfuel. unfold Storage.listAll.
  destruct (listAllHelper_answers ref _ _ _ _ Hanswers fuel
              {| Storage.prefixes := []; Storage.items := [];
                 Storage.nextPageToken := Js.Undefined |} w eq_refl Hfuel)
    as (q & accumulator' & w' & events & tokens
        & Hrun & Hnet & Htrace & Hout & Hcount & Hpages & Hfailed).
  rewrite Hrun.
  exists (Storage.then_ q (fun _ => Storage.Returned accumulator')), w'.
  exists events, (Js.Undefined :: tokens).
  split; [reflexivity|]. split; [exact Hnet|]. split; [exact Htrace|].
  split; [exact Hout|]. split; [simpl; now rewrite Hcount|].
  split; [reflexivity|]. split; [exact Hpages | exact Hfailed].
Qed.

(** C4 (as the code has it). [listAllHelper] is a recursive async
    function, and each activation awaits the one it starts: against a
    network scripted with pages of which the last carries no token,
    [listAll] terminates and resolves, however many pages there are, and
    on the way there are as many [listAllHelper] activations pending at
    once as there are pages. *)
Theorem listAll_resolves_with_page_count_activations
    (ref : Storage.Reference) (pages : list Storage.ListResult)
    (w : Storage.World) (n' : Storage.Net) (fuel : nat) :
  Storage.Serves ref Js.Undefined (Storage.net w) pages n' ->
  (List.length pages <= fuel)%nat ->
  exists result w',
    Storage.listAll fuel ref w = Some (Storage.Fulfilled result, w')
    /\ Storage.pending w' = Storage.pending w
    /\ Storage.peak w'
       = Nat.max (Storage.peak w) (Storage.pending w + List.length pages).
Proof.
  intros Hserves Hfuel. unfold Storage.listAll.
  rewrite (listAllHelper_serves ref _ _ _ _ Hserves fuel _ w eq_refl Hfuel).
  cbn. eauto.
Qed.

End ListAllFacts.

(** ** Runs against the scripted network *)

#[local] Existing Instances Scripted.env Scripted.collaborators.

Lemma scripted_serves (p : string) (n : nat) :
  forall (pageToken : Js.Opt string) (rest : list Scripted.Response),
    Storage.Serves (Scripted.objectRef p) pageToken
      (map Scripted.PageResponse (Scripted.listing n) ++ rest)
      (map (Scripted.decodePage
              (Storage._location (Scripted.objectRef p)))
           (Scripted.listing n))
      rest.
Proof.
  induction n as [|n IH]; intros tok rest; cbn [Scripted.listing map app].
  - apply Storage.serves_last; reflexivity.
  - eapply Storage.serves_next; [reflexivity | reflexivity | apply IH].
Qed.

Lemma listing_length (n : nat) : List.length (Scripted.listing n) = S n.
Proof. induction n; simpl; congruence. Qed.

(** Against a listing of [n + 1] pages the helper runs [n + 1]
    activations deep. *)
Lemma scripted_listAll_peak (n : nat) :
  exists result w',
    Storage.listAll (S n) (Scripted.objectRef "")
      (Scripted.world (map Scripted.PageResponse (Scripted.listing n)))
    = Some (Storage.Fulfilled result, w')
    /\ Storage.peak w' = S n.
Proof.
  unfold Storage.listAll.
  rewrite (listAllHelper_serves (Scripted.objectRef "") Js.Undefined
             (map Scripted.PageResponse (Scripted.listing n))
             (map (Scripted.decodePage
                     (Storage._location (Scripted.objectRef "")))
                  (Scripted.listing n)) []).
  - cbn. rewrite length_map, listing_length. eauto.
  - rewrite <- (app_nil_r (map Scripted.PageResponse (Scripted.listing n))).
    apply scripted_serves.
  - reflexivity.
  - rewrite length_map, listing_length. lia.
Qed.

Lemma listAll_concatenates_pages_witness :
  exists w',
    Storage.listAll 3 (Scripted.objectRef "")
      (Scripted.world (map Scripted.PageResponse (Scripted.listing 2)))
    = Some (Storage.Fulfilled
              {| Storage.prefixes :=
                   concat (map Storage.prefixes
                             (map (Scripted.decodePage
                                     (Storage._location (Scripted.objectRef "")))
                                  (Scripted.listing 2)));
                 Storage.items :=
                   concat (map Storage.items
                             (map (Scripted.decodePage
                                     (Storage._location (Scripted.objectRef "")))
                                  (Scripted.listing 2)));
                 Storage.nextPageToken := Js.Undefined |}, w').
Proof.
  apply (listAll_concatenates_pages (Scripted.objectRef "")
           (map (Scripted.decodePage
                   (Storage._location (Scripted.objectRef "")))
                (Scripted.listing 2))
           (Scripted.world (map Scripted.PageResponse (Scripted.listing 2)))
           [] 3).
  - eapply Storage.serves_next; [reflexivity | reflexivity |].
    eapply Storage.serves_next; [reflexivity | reflexivity |].
    apply Storage.serves_last; reflexivity.
  - simpl. lia.
Defined.

(** The same run, evaluated. *)
Example listAll_three_pages :
  fst <$> Storage.listAll 3 (Scripted.objectRef "")
            (Scripted.world (map Scripted.PageResponse (Scripted.listing 2)))
  = Some (Storage.Fulfilled
            {| Storage.prefixes :=
                 [Scripted.objectRef "dir"; Scripted.objectRef "dir"];
               Storage.items :=
                 [Scripted.objectRef "item"; Scripted.objectRef "item";
                  Scripted.objectRef "last"];
               Storage.nextPageToken := Js.Undefined |}).
Proof. reflexivity. Qed.

Lemma listAll_follows_tokens_witness :
  exists p w' events tokens,
    Storage.listAll 3 (Scripted.objectRef "")
      (Scripted.world (map Scripted.PageResponse Scripted.chapters))
    = Some (p, w')
    /\ Storage.net w' = []
    /\ Storage.trace w' = [] ++ events
    /\ Storage.outgoing events
       = concat (map (Storage.listRequest (Scripted.objectRef "")) tokens)
    /\ List.length tokens
       = List.length
           (map (fun raw =>
                   Storage.Fulfilled
                     (Scripted.decodePage
                        (Storage._location (Scripted.objectRef "")) raw))
                Scripted.chapters)
    /\ tokens !! 0%nat = Some Js.Undefined
    /\ (forall (i : nat) (page : Storage.ListResult),
          map (fun raw =>
                 Storage.Fulfilled
                   (Scripted.decodePage
                      (Storage._location (Scripted.objectRef "")) raw))
              Scripted.chapters !! i
          = Some (Storage.Fulfilled page) ->
          match Storage.nextPageToken page with
          | Js.Defined token => tokens !! S i = Some (Js.Defined token)
          | _ => tokens !! S i = None
          end)
    /\ (forall (i : nat) (e : Storage.StorageError),
          map (fun raw =>
                 Storage.Fulfilled
                   (Scripted.decodePage
                      (Storage._location (Scripted.objectRef "")) raw))
              Scripted.chapters !! i
          = Some (Storage.Rejected e) ->
          tokens !! S i = None).
Proof.
  apply (listAll_follows_tokens (Scripted.objectRef "")
           (map (fun raw =>
                   Storage.Fulfilled
                     (Scripted.decodePage
                        (Storage._location (Scripted.objectRef "")) raw))
                Scripted.chapters)
           (Scripted.world (map Scripted.PageResponse Scripted.chapters))
           [] 3).
  - eapply Storage.answers_next; [reflexivity | reflexivity |].
    eapply Storage.answers_next; [reflexivity | reflexivity |].
    apply Storage.answers_last; reflexivity.
  - simpl. lia.
Defined.

(** The same run, evaluated: three list requests, the first without a
    token, the second and the third with the tokens of the first and
    the second page; nothing after the page whose token is [null]. *)
Example listAll_chapters_requests :
  (fun r => Storage.outgoing (Storage.trace (snd r)))
    <$> Storage.listAll 3 (Scripted.objectRef "")
          (Scripted.world (map Scripted.PageResponse Scripted.chapters))
  = Some (concat (map (Storage.listRequest (Scripted.objectRef ""))
                      [Js.Undefined; Js.Defined "t1"; Js.Defined "t2"])).
Proof. reflexivity. Qed.

Lemma listAll_resolves_with_page_count_activations_witness :
  exists result w',
    Storage.listAll 3 (Scripted.objectRef "")
      (Scripted.world (map Scripted.PageResponse (Scripted.listing 2)))
    = Some (Storage.Fulfilled result, w')
    /\ Storage.pending w' = 0%nat
    /\ Storage.peak w' = Nat.max 0 (0 + 3).
Proof.
  apply (listAll_resolves_with_page_count_activations
           (Scripted.objectRef "")
           (map (Scripted.decodePage
                   (Storage._location (Scripted.objectRef "")))
                (Scripted.listing 2))
           (Scripted.world (map Scripted.PageResponse (Scripted.listing 2)))
           [] 3).
  - eapply Storage.serves_next; [reflexivity | reflexivity |].
    eapply Storage.serves_next; [reflexivity | reflexivity |].
    apply Storage.serves_last; reflexivity.
  - simpl. lia.
Defined.

(** The number of pending activations is not bounded: whatever the
    bound, a listing of more pages than the bound resolves after more
    activations than the bound have been pending at once. *)
Lemma listAll_activations_unbounded :
  ~ exists bound : nat,
      forall (n : nat) (p : Storage.Promise Storage.ListResult)
             (w' : Storage.World),
        Storage.listAll (S n) (Scripted.objectRef "")
          (Scripted.world (map Scripted.PageResponse (Scripted.listing n)))
        = Some (p, w') ->
        (Storage.peak w' <= bound)%nat.
Proof.
  intros [bound Hbound].
  destruct (scripted_listAll_peak bound) as (result & w' & Hrun & Hpeak).
  specialize (Hbound bound _ _ Hrun). lia.
Qed.

(** Against a network that answers every request with a page that
    carries a token, no bound on the nested calls is enough: the run
    does not end. *)
Lemma listAllHelper_endless (raw : Scripted.RawPage) (token : string) :
  Scripted.rawToken raw = Js.Defined token ->
  forall (fuel : nat) (accumulator : Storage.ListResult)
         (pageToken : Js.Opt string) (w : Storage.World),
    Storage.net w = [Scripted.PageResponse raw] ->
    Storage.listAllHelper (collaborators := Scripted.repeating)
      fuel (Scripted.objectRef "") accumulator pageToken w
    = None.
Proof.
  intros Htoken. induction fuel as [|fuel IH]; intros accumulator tok w Hnet;
    [reflexivity|].
  cbn [Storage.listAllHelper].
  rewrite (list_page (collaborators := Scripted.repeating)).
  cbn [Storage.net Storage.enter]. rewrite Hnet. cbn. rewrite Htoken.
  now rewrite IH.
Qed.

Example listAll_five_pages_five_activations :
  (fun r => Storage.peak (snd r))
    <$> Storage.listAll 5 (Scripted.objectRef "")
          (Scripted.world (map Scripted.PageResponse (Scripted.listing 4)))
  = Some 5%nat.
Proof. reflexivity. Qed.

(** When the script ends on a page that carries a token, the request
    for the page after it fails, and [listAll] rejects. *)
Example listAll_needs_a_last_page :
  fst <$> Storage.listAll 5 (Scripted.objectRef "")
            (Scripted.world
               (map Scripted.PageResponse (removelast (Scripted.listing 4))))
  = Some (Storage.Rejected (Storage.otherError "no scripted response")).
Proof. reflexivity. Qed.

Lemma root_reference_rejected_witness :
  (Storage.getMetadata (Scripted.objectRef "") (Scripted.world [])
   = (Storage.Thrown (Storage.invalidRootOperation "getMetadata"),
      Scripted.world [])
   /\ Storage.deleteObject (Scripted.objectRef "") (Scripted.world [])
      = (Storage.Thrown (Storage.invalidRootOperation "deleteObject"),
         Scripted.world []))
  /\ Storage._throwIfRoot (Scripted.objectRef "a/b") "getMetadata"
       (Scripted.world [])
     = (Storage.Returned tt, Scripted.world []).
Proof.
  split.
  - pose proof (proj1 (root_reference_rejected (Scripted.objectRef "")
                         (Scripted.world [])) eq_refl) as H.
    split; apply H.
  - apply (proj2 (root_reference_rejected (Scripted.objectRef "a/b")
                    (Scripted.world []))).
    discriminate.
Defined.

(** On an object reference the same operation goes to the network. *)
Example getMetadata_object :
  Storage.getMetadata (Scripted.objectRef "a/b")
    (Scripted.world [Scripted.EmptyResponse])
  = (Storage.Returned (Storage.Fulfilled ∅),
     {| Storage.net := [];
        Storage.trace :=
          [ Storage.RequestBuilt
              (Storage.CallGetMetadata
                 (Storage._location (Scripted.objectRef "a/b")));
            Storage.RequestIssued (gmap string Js.Value)
              (Storage.requestsGetMetadata tt
                 (Storage._location (Scripted.objectRef "a/b")) tt) ];
        Storage.pending := 0%nat; Storage.peak := 0%nat |}).
Proof. reflexivity. Qed.

Lemma getDownloadURL_never_null_witness :
  exists w',
    Storage.net w' = []
    /\ Storage.getDownloadURL (Scripted.objectRef "a/b")
         (Scripted.world [Scripted.UrlResponse None])
       = (Storage.Returned (Storage.Rejected Storage.noDownloadURL), w').
Proof.
  apply (proj2 (getDownloadURL_never_null (Scripted.objectRef "a/b")
                  (Scripted.world [Scripted.UrlResponse None]))
           None []).
  - discriminate.
  - reflexivity.
Defined.

Example getDownloadURL_resolves_with_the_url :
  fst (Storage.getDownloadURL (Scripted.objectRef "a/b")
         (Scripted.world [Scripted.UrlResponse (Some "https://x/y")]))
  = Storage.Returned (Storage.Fulfilled (Some "https://x/y")).
Proof. reflexivity. Qed.

(** [maxResults] of 0 and of 1001 are refused, 1000 is accepted. *)
Example list_maxResults_0 :
  Storage.list (Scripted.objectRef "")
    (Js.Defined {| Storage.maxResults := Js.VNumber 0;
                   Storage.pageToken := Js.Undefined |})
    (Scripted.world [])
  = (Storage.Thrown (Storage.invalidArgument "options.maxResults"),
     Scripted.world []).
Proof. reflexivity. Qed.

Example list_maxResults_1000 :
  fst (Storage.list (Scripted.objectRef "")
         (Js.Defined {| Storage.maxResults := Js.VNumber 1000;
                        Storage.pageToken := Js.Undefined |})
         (Scripted.world
            (map Scripted.PageResponse (Scripted.listing 0))))
  = Storage.Returned
      (Storage.Fulfilled
         {| Storage.prefixes := [];
            Storage.items := [Scripted.objectRef "last"];
            Storage.nextPageToken := Js.Undefined |}).
Proof. reflexivity. Qed.

(** ** [BrowserPersistence] *)

Section PersistenceFacts.
Context {host : Persistence.Host}.

(** C9 (as the code has it). [set(k, v)] resolves exactly when the
    storage object exists and its [setItem] accepts the text
    [JSON.stringify(v)]; it has then stored that text under [k], and
    [get(k)] gives [JSON.parse(JSON.stringify(v))], which is [v] itself
    where the codec round-trips.  A [set] that rejects leaves the
    storage as it was.  On a storage object that exists, [get(k)] for a
    key that is not stored, or that has been removed, gives [null]. *)
Theorem get_after_set (key : string) (value : Persistence.Json)
    (storage : Persistence.Store) :
  (fst (Persistence.set key value storage) = Persistence.Fulfilled tt
   <-> exists items : gmap string string,
         storage = Some items
         /\ Persistence.quotaExceeded items key
              (Persistence.JSON_stringify value) = false)
  /\ (fst (Persistence.set key value storage) = Persistence.Fulfilled tt ->
      (exists items : gmap string string,
          storage = Some items
          /\ snd (Persistence.set key value storage)
             = Some (<[key := Persistence.JSON_stringify value]> items))
      /\ Persistence.get key (snd (Persistence.set key value storage))
         = Persistence.parsed (Persistence.JSON_stringify value)
      /\ (Persistence.JSON_parse (Persistence.JSON_stringify value)
          = Some value ->
          Persistence.get key (snd (Persistence.set key value storage))
          = Persistence.Fulfilled value))
  /\ (fst (Persistence.set key value storage) <> Persistence.Fulfilled tt ->
      snd (Persistence.set key value storage) = storage)
  /\ (forall items : gmap string string,
        storage = Some items -> items !! key = None ->
        Persistence.get key storage
        = Persistence.Fulfilled Persistence.null)
  /\ (forall items : gmap string string,
        storage = Some items ->
        Persistence.get key (snd (Persistence.remove key storage))
        = Persistence.Fulfilled Persistence.null).
Proof.
  split; [|split; [|split; [|split]]].
  - unfold Persistence.set, Persistence.setItem.
    destruct storage as [items|]; cbn.
    + destruct (Persistence.quotaExceeded items key _) eqn:Hquota; cbn.
      * split; [discriminate|]. intros (items' & [= <-] & Hfree). congruence.
      * split; [eauto | reflexivity].
    + split; [discriminate|]. intros (items & Hnone & _). discriminate.
  - unfold Persistence.set, Persistence.setItem.
    destruct storage as [items|]; cbn [fst snd]; [|discriminate].
    destruct (Persistence.quotaExceeded items key _); cbn [fst snd];
      [discriminate|].
    intros _.
    assert (Hget : Persistence.get key
                     (Some (<[key := Persistence.JSON_stringify value]> items))
                   = Persistence.parsed (Persistence.JSON_stringify value)).
    { unfold Persistence.get, Persistence.getItem.
      rewrite lookup_insert_eq.
      destruct (decide (Persistence.JSON_stringify value = ""))
        as [Hempty|_]; [|reflexivity].
      now apply Persistence.JSON_stringify_not_empty in Hempty. }
    split; [eauto|]. split; [exact Hget|].
    intros Hround. rewrite Hget. unfold Persistence.parsed.
    now rewrite Hround.
  - unfold Persistence.set, Persistence.setItem.
    destruct storage as [items|]; cbn; [|reflexivity].
    destruct (Persistence.quotaExceeded items key _); cbn;
      [reflexivity | congruence].
  - intros items -> Hfresh.
    unfold Persistence.get, Persistence.getItem. now rewrite Hfresh.
  - intros items ->.
    unfold Persistence.remove, Persistence.removeItem, Persistence.get,
      Persistence.getItem; simpl.
    now rewrite lookup_delete_eq.
Qed.

End PersistenceFacts.

Lemma get_after_set_witness :
  fst (Persistence.set (host := Persistence.QuotedStrings.host 100) "user"
         (Some "alice") (Some {["other" := "null"]}))
  = Persistence.Fulfilled tt
  /\ Persistence.get (host := Persistence.QuotedStrings.host 100) "user"
       (snd (Persistence.set (host := Persistence.QuotedStrings.host 100)
               "user" (Some "alice") (Some {["other" := "null"]})))
     = Persistence.Fulfilled (Some "alice")
  /\ Persistence.get (host := Persistence.QuotedStrings.host 100) "user"
       (Some {["other" := "null"]})
     = Persistence.Fulfilled None
  /\ Persistence.get (host := Persistence.QuotedStrings.host 100) "user"
       (snd (Persistence.remove "user"
               (snd (Persistence.set
                       (host := Persistence.QuotedStrings.host 100)
                       "user" (Some "alice") (Some {["other" := "null"]})))))
     = Persistence.Fulfilled None.
Proof.
  destruct (get_after_set (host := Persistence.QuotedStrings.host 100)
              "user" (Some "alice") (Some {["other" := "null"]}))
    as (Hresolves & Hstored & _ & Hfresh & _).
  assert (Hset : fst (Persistence.set
                        (host := Persistence.QuotedStrings.host 100) "user"
                        (Some "alice") (Some {["other" := "null"]}))
                 = Persistence.Fulfilled tt).
  { apply Hresolves. exists {["other" := "null"]}.
    split; reflexivity. }
  split; [exact Hset|].
  split; [apply (proj2 (proj2 (Hstored Hset))); reflexivity|].
  split; [apply (Hfresh {["other" := "null"]}); reflexivity|].
  destruct (get_after_set (host := Persistence.QuotedStrings.host 100)
              "user" (Some "alice")
              (snd (Persistence.set
                      (host := Persistence.QuotedStrings.host 100)
                      "user" (Some "alice") (Some {["other" := "null"]}))))
    as (_ & _ & _ & _ & Hremoved).
  apply (Hremoved
           (<["user" := Persistence.QuotedStrings.stringify (Some "alice")]>
              {["other" := "null"]})).
  reflexivity.
Defined.

(** Not for every key and value does [get(k)] after [set(k, v)] give
    [JSON.parse(JSON.stringify(v))] (C9): a [set] that the storage
    refuses rejects and stores nothing, and [get] then gives what the
    storage held before, here [null]. *)
Lemma get_after_refused_set :
  ~ forall (host : Persistence.Host) (key : string)
           (value : Persistence.Json) (storage : Persistence.Store),
      Persistence.get key (snd (Persistence.set key value storage))
      = Persistence.parsed (Persistence.JSON_stringify value).
Proof.
  intros Hclaim.
  specialize (Hclaim (Persistence.QuotedStrings.host 4) "user"
                (Some "alice") (Some ∅)).
  vm_compute in Hclaim. discriminate Hclaim.
Qed.

(** The same run, step by step: the text is six characters long and
    the storage takes four. *)
Example get_after_refused_set_null :
  Persistence.set (host := Persistence.QuotedStrings.host 4) "user"
    (Some "alice") (Some ∅)
  = (Persistence.Rejected Persistence.QuotaExceededError, Some ∅)
  /\ Persistence.get (host := Persistence.QuotedStrings.host 4) "user"
       (Some ∅)
     = Persistence.Fulfilled None
  /\ Persistence.parsed (host := Persistence.QuotedStrings.host 4)
       (Persistence.JSON_stringify
          (Host := Persistence.QuotedStrings.host 4) (Some "alice"))
     = Persistence.Fulfilled (Some "alice").
Proof. repeat split. Qed.

(** Without a storage object both calls reject. *)
Example set_without_storage :
  Persistence.set (host := Persistence.QuotedStrings.host 4) "user"
    (Some "alice") None
  = (Persistence.Rejected Persistence.TypeError, None)
  /\ Persistence.get (host := Persistence.QuotedStrings.host 4) "user" None
     = Persistence.Rejected Persistence.TypeError.
Proof. split; reflexivity. Qed.

(** A text over quota is refused and the store keeps what it had. *)
Example set_over_quota :
  Persistence.set (host := Persistence.QuotedStrings.host 4) "user"
    (Some "alice") (Some ∅)
  = (Persistence.Rejected Persistence.QuotaExceededError, Some ∅).
Proof. reflexivity. Qed.

(** ** Strings in order, and [stringCompare] *)

#[local] Remove Hints Scripted.env Scripted.collaborators
  : typeclass_instances.


Lemma ascii_compare_refl (c : ascii) : Ascii.compare c c = Eq.
Proof. unfold Ascii.compare. apply N.compare_refl. Qed.

Lemma ascii_compare_lt_trans (x y z : ascii) :
  Ascii.compare x y = Lt -> Ascii.compare y z = Lt -> Ascii.compare x z = Lt.
Proof. unfold Ascii.compare. rewrite !N.compare_lt_iff. lia. Qed.

Lemma string_compare_refl (s : string) : String.compare s s = Eq.
Proof. induction s as [|c s IH]; simpl; [reflexivity|]. now rewrite ascii_compare_refl. Qed.

Lemma string_compare_lt_trans (a : string) :
  forall b c : string,
    String.compare a b = Lt -> String.compare b c = Lt ->
    String.compare a c = Lt.
Proof.
  induction a as [|x a IH]; intros [|y b] [|z c]; simpl; try discriminate;
    try reflexivity.
  destruct (Ascii.compare x y) eqn:Hxy; try discriminate;
    destruct (Ascii.compare y z) eqn:Hyz; try discriminate; intros Hab Hbc.
  - apply Ascii.compare_eq_iff in Hxy, Hyz. subst.
    rewrite ascii_compare_refl. eauto.
  - apply Ascii.compare_eq_iff in Hxy. subst. now rewrite Hyz.
  - apply Ascii.compare_eq_iff in Hyz. subst. now rewrite Hxy.
  - now rewrite (ascii_compare_lt_trans x y z).
Qed.

Lemma string_ltb_irrefl (s : string) : String.ltb s s = false.
Proof. unfold String.ltb. now rewrite string_compare_refl. Qed.

Lemma string_ltb_trans (a b c : string) :
  String.ltb a b = true -> String.ltb b c = true -> String.ltb a c = true.
Proof.
  unfold String.ltb.
  destruct (String.compare a b) eqn:Hab; try discriminate.
  destruct (String.compare b c) eqn:Hbc; try discriminate.
  now rewrite (string_compare_lt_trans a b c).
Qed.

(** Of two different strings exactly one is smaller. *)
Lemma string_ltb_total (a b : string) :
  a <> b -> String.ltb b a = negb (String.ltb a b).
Proof.
  intros Hne. unfold String.ltb. rewrite (String.compare_antisym a b).
  destruct (String.compare b a) eqn:Hba; try reflexivity.
  apply String.compare_eq_iff in Hba. congruence.
Qed.

(** X1. [stringCompare] returns 0 exactly on equal strings, only -1, 0
    or 1, and swapping its arguments negates the result. *)
Theorem stringCompare_sign (a b : string) :
  (Util.stringCompare a b = 0 <-> a = b)
  /\ Util.stringCompare b a = - Util.stringCompare a b
  /\ (Util.stringCompare a b = -1 \/ Util.stringCompare a b = 0
      \/ Util.stringCompare a b = 1).
Proof.
  unfold Util.stringCompare.
  destruct (decide (a = b)) as [->|Hne].
  - rewrite decide_True by reflexivity. repeat split; auto.
  - rewrite decide_False by congruence.
    rewrite (string_ltb_total a b Hne).
    destruct (String.ltb a b); simpl; repeat split; auto; try lia;
      intros; congruence || lia.
Qed.

(** X2. [stringCompare] is transitive: if it puts [a] before [b] and [b]
    before [c], it puts [a] before [c]. *)
Theorem stringCompare_transitive (a b c : string) :
  Util.stringCompare a b < 0 -> Util.stringCompare b c < 0 ->
  Util.stringCompare a c < 0.
Proof.
  unfold Util.stringCompare.
  destruct (decide (a = b)); [lia|].
  destruct (decide (b = c)); [lia|].
  destruct (String.ltb a b) eqn:Hab; [|lia].
  destruct (String.ltb b c) eqn:Hbc; [|lia].
  intros _ _. pose proof (string_ltb_trans a b c Hab Hbc) as Hac.
  destruct (decide (a = c)) as [->|_].
  - now rewrite string_ltb_irrefl in Hac.
  - rewrite Hac. lia.
Qed.

(** ** [INTEGER_REGEXP_] *)

Lemma allZeros_allDigits (s : string) :
  Util.allZeros s = true -> Util.allDigits s = true.
Proof.
  induction s as [|c s IH]; [reflexivity|]. simpl.
  intros [Hc Hs]%andb_true_iff. apply Ascii.eqb_eq in Hc. subst c.
  now rewrite IH.
Qed.

Lemma allDigits_app (s t : string) :
  Util.allDigits (String.append s t)
  = Util.allDigits s && Util.allDigits t.
Proof.
  induction s as [|c s IH]; [reflexivity|].
  change (String.append (String c s) t) with (String c (String.append s t)).
  simpl. rewrite IH. now rewrite andb_assoc.
Qed.

Lemma stripZeros_length (s : string) :
  (String.length (Util.stripZeros s) <= String.length s)%nat.
Proof.
  induction s as [|c s IH]; [reflexivity|]. simpl.
  destruct (Ascii.ascii_dec c "0") as [->|Hc]; simpl; [lia|].
  destruct c as [[] [] [] [] [] [] [] []]; simpl; try lia; congruence.
Qed.

Lemma stripZeros_zeros (zeros s : string) :
  Util.allZeros zeros = true ->
  Util.stripZeros (String.append zeros s) = Util.stripZeros s.
Proof.
  induction zeros as [|c z IH]; [reflexivity|]. simpl.
  intros [Hc Hz]%andb_true_iff. apply Ascii.eqb_eq in Hc. subst c.
  change (String.append (String "0" z) s) with (String "0" (String.append z s)).
  simpl. auto.
Qed.

(** A run of digits is its leading zeros followed by the rest. *)
Lemma stripZeros_split (s : string) :
  exists zeros, s = String.append zeros (Util.stripZeros s)
                /\ Util.allZeros zeros = true.
Proof.
  induction s as [|c s (zeros & Heq & Hz)]; [exists ""; auto|].
  destruct (Ascii.ascii_dec c "0") as [->|Hc].
  - exists (String "0" zeros). simpl. split; [|exact Hz].
    now rewrite Heq at 1.
  - exists "". split; [|reflexivity]. simpl.
    destruct c as [[] [] [] [] [] [] [] []]; try reflexivity; congruence.
Qed.

(** A run of zeros can give up its last one. *)
Lemma allZeros_last (s : string) :
  Util.allZeros s = true -> s <> "" ->
  exists zeros, s = String.append zeros "0" /\ Util.allZeros zeros = true.
Proof.
  induction s as [|c s IH]; [congruence|]. simpl.
  intros [Hc Hs]%andb_true_iff _. apply Ascii.eqb_eq in Hc. subst c.
  destruct s as [|d s].
  - exists "". auto.
  - destruct (IH Hs) as (zeros & Heq & Hz); [discriminate|].
    exists (String "0" zeros). simpl. rewrite Hz. split; [|reflexivity].
    now rewrite Heq at 1.
Qed.

Lemma stripZeros_allZeros (s : string) :
  Util.allDigits s = true -> Util.stripZeros s = "" ->
  Util.allZeros s = true.
Proof.
  induction s as [|c s IH]; [reflexivity|]. simpl.
  intros [Hc Hs]%andb_true_iff.
  destruct (Ascii.ascii_dec c "0") as [->|Hne]; [simpl; auto|].
  destruct c as [[] [] [] [] [] [] [] []]; simpl; try discriminate; congruence.
Qed.

Lemma stripZeros_allDigits (s : string) :
  Util.allDigits s = true -> Util.allDigits (Util.stripZeros s) = true.
Proof.
  intros Hs. destruct (stripZeros_split s) as (zeros & Heq & Hz).
  rewrite Heq, allDigits_app in Hs. now apply andb_true_iff in Hs as [_ ?].
Qed.

Lemma stripMinus_digits (s : string) :
  Util.allDigits s = true -> Util.stripMinus s = s.
Proof.
  destruct s as [|c s]; [reflexivity|]. simpl.
  intros [Hc _]%andb_true_iff.
  destruct c as [[] [] [] [] [] [] [] []]; try reflexivity; discriminate.
Qed.

(** X3. The test that [tryParseInt] runs accepts exactly the strings
    made of an optional minus sign, any number of zeros, and then one
    to ten digits. *)
Theorem INTEGER_REGEXP_test_matches (str : string) :
  Util.INTEGER_REGEXP_test str = true <-> Util.INTEGER_REGEXP_matches str.
Proof.
  unfold Util.INTEGER_REGEXP_test, Util.INTEGER_REGEXP_matches. split.
  - intros [[Hne Hdigits]%andb_true_iff Hlen%Nat.leb_le]%andb_true_iff.
    apply negb_true_iff, String.eqb_neq in Hne.
    assert (Hsign : exists sign, str = String.append sign (Util.stripMinus str)
                                 /\ (sign = "" \/ sign = "-")).
    { destruct str as [|c s]; [exists ""; auto|].
      destruct (Ascii.ascii_dec c "-") as [->|Hc].
      - exists "-". auto.
      - exists "". split; [|auto].
        destruct c as [[] [] [] [] [] [] [] []]; try reflexivity; congruence. }
    destruct Hsign as (sign & Hstr & Hsign).
    set (body := Util.stripMinus str) in *.
    destruct (String.eqb_spec (Util.stripZeros body) "") as [Hall|Hsome].
    + destruct (allZeros_last body (stripZeros_allZeros body Hdigits Hall) Hne)
        as (zeros & Hbody & Hz).
      exists sign, zeros, "0". rewrite <- Hbody.
      repeat split; auto; simpl; lia.
    + destruct (stripZeros_split body) as (zeros & Hbody & Hz).
      exists sign, zeros, (Util.stripZeros body). rewrite <- Hbody.
      repeat split; auto using stripZeros_allDigits.
      destruct (Util.stripZeros body); [congruence | simpl; lia].
  - intros (sign & zeros & digits & -> & Hsign & Hz & Hd & Hlen1 & Hlen10).
    assert (Hbody : Util.allDigits (String.append zeros digits) = true).
    { rewrite allDigits_app, Hd, (allZeros_allDigits zeros Hz). reflexivity. }
    assert (Hstrip : Util.stripMinus (String.append sign
                                        (String.append zeros digits))
                     = String.append zeros digits).
    { destruct Hsign as [-> | ->]; [|reflexivity].
      now apply stripMinus_digits. }
    rewrite Hstrip, Hbody, (stripZeros_zeros zeros digits Hz).
    apply andb_true_iff; split; [apply andb_true_iff; split; [|reflexivity]|].
    + apply negb_true_iff, String.eqb_neq.
      destruct zeros; [destruct digits; [simpl in Hlen1; lia|]|]; discriminate.
    + apply Nat.leb_le. pose proof (stripZeros_length digits). lia.
Qed.

(** ** [tryParseInt] *)

Lemma digit_cases (d : Z) :
  0 <= d <= 9 ->
  d = 0 \/ d = 1 \/ d = 2 \/ d = 3 \/ d = 4 \/ d = 5 \/ d = 6 \/ d = 7
  \/ d = 8 \/ d = 9.
Proof. lia. Qed.

Lemma digitChar_value (d : Z) :
  0 <= d <= 9 ->
  JsNumber.digitValue (JsNumber.digitChar d) = d
  /\ JsNumber.isDigit (JsNumber.digitChar d) = true.
Proof.
  intros Hd. destruct (digit_cases d Hd)
    as [->|[->|[->|[->|[->|[->|[->|[->|[->| ->]]]]]]]]]; split; reflexivity.
Qed.

Lemma digitsValue_digitChar (d acc : Z) (s : string) :
  0 <= d <= 9 ->
  JsNumber.digitsValue acc (String (JsNumber.digitChar d) s)
  = JsNumber.digitsValue (10 * acc + d) s.
Proof.
  intros Hd. cbn [JsNumber.digitsValue].
  now rewrite (proj1 (digitChar_value d Hd)).
Qed.

(** Reading the digits written for [n] gives [n] back. *)
Lemma digitsOf_value (fuel : nat) :
  forall (n : Z) (acc : string),
    0 <= n < 10 ^ Z.of_nat fuel ->
    JsNumber.digitsValue 0 (JsNumber.digitsOf fuel n acc)
    = JsNumber.digitsValue n acc.
Proof.
  induction fuel as [|fuel IH]; intros n acc Hn.
  - simpl in *. now replace n with 0 by lia.
  - cbn [JsNumber.digitsOf].
    assert (Hmod : 0 <= n mod 10 <= 9) by (pose proof (Z.mod_pos_bound n 10); lia).
    destruct (Z.ltb_spec n 10) as [Hsmall|Hbig].
    + rewrite digitsValue_digitChar by exact Hmod.
      f_equal. rewrite Z.mod_small; lia.
    + rewrite IH.
      * rewrite digitsValue_digitChar by exact Hmod.
        f_equal. pose proof (Z.div_mod n 10). lia.
      * rewrite Nat2Z.inj_succ, Z.pow_succ_r in Hn by lia.
        split; [apply Z.div_pos; lia|].
        apply Z.div_lt_upper_bound; lia.
Qed.

Lemma digitsOf_allDigits (fuel : nat) :
  forall (n : Z) (acc : string),
    0 <= n ->
    Util.allDigits (JsNumber.digitsOf fuel n acc) = Util.allDigits acc.
Proof.
  induction fuel as [|fuel IH]; intros n acc Hn; [reflexivity|].
  cbn [JsNumber.digitsOf].
  assert (Hmod : 0 <= n mod 10 <= 9) by (pose proof (Z.mod_pos_bound n 10); lia).
  destruct (Z.ltb_spec n 10).
  - simpl. now rewrite (proj2 (digitChar_value _ Hmod)).
  - rewrite IH by (apply Z.div_pos; lia).
    simpl. now rewrite (proj2 (digitChar_value _ Hmod)).
Qed.

Lemma digitsOf_length (fuel : nat) :
  forall (n : Z) (acc : string) (k : nat),
    (1 <= k)%nat -> 0 <= n < 10 ^ Z.of_nat k ->
    (String.length acc <= String.length (JsNumber.digitsOf fuel n acc)
     <= k + String.length acc)%nat.
Proof.
  induction fuel as [|fuel IH]; intros n acc k Hk Hn; [simpl; lia|].
  cbn [JsNumber.digitsOf]. destruct (Z.ltb_spec n 10) as [Hsmall|Hbig].
  - simpl. lia.
  - destruct k as [|k]; [lia|]. destruct k as [|k].
    + simpl in Hn. lia.
    + rewrite Nat2Z.inj_succ, Z.pow_succ_r in Hn by lia.
      pose proof (IH (n / 10) (String (JsNumber.digitChar (n mod 10)) acc)
                    (S k)) as Hlen.
      simpl String.length in Hlen. simpl.
      assert (0 <= n / 10 < 10 ^ Z.of_nat (S k)).
      { split; [apply Z.div_pos; lia|]. apply Z.div_lt_upper_bound; lia. }
      lia.
Qed.

Lemma digits_fuel (n : Z) :
  0 <= n -> n < 10 ^ Z.of_nat (S (Z.to_nat (Z.log2 n))).
Proof.
  intros Hn. pose proof (Z.log2_nonneg n) as Hlog.
  rewrite Nat2Z.inj_succ, Z2Nat.id by exact Hlog.
  destruct (Z.eq_dec n 0) as [->|Hpos]; [reflexivity|].
  pose proof (Z.log2_spec n ltac:(lia)) as [_ Hlt].
  eapply Z.lt_le_trans; [exact Hlt|].
  apply Z.pow_le_mono_l. lia.
Qed.

Lemma Number_digits (s : string) :
  Util.allDigits s = true -> JsNumber.Number s = JsNumber.digitsValue 0 s.
Proof.
  destruct s as [|c s]; [reflexivity|]. simpl.
  intros [Hc _]%andb_true_iff.
  destruct c as [[] [] [] [] [] [] [] []]; try reflexivity; discriminate.
Qed.

(** What [toString] writes for [m >= 0]: digits only, at least one,
    no more than [m] needs, and they read back as [m]. *)
Lemma digits_of_spec (m : Z) (k : nat) :
  (1 <= k)%nat -> 0 <= m < 10 ^ Z.of_nat k ->
  let ds := JsNumber.digitsOf (S (Z.to_nat (Z.log2 m))) m "" in
  Util.allDigits ds = true
  /\ ds <> ""
  /\ (String.length ds <= k)%nat
  /\ JsNumber.digitsValue 0 ds = m.
Proof.
  intros Hk Hm ds. subst ds. repeat split.
  - now rewrite digitsOf_allDigits by lia.
  - cbn [JsNumber.digitsOf]. destruct (m <? 10); [discriminate|].
    intros Hempty.
    pose proof (digitsOf_length (Z.to_nat (Z.log2 m)) (m / 10)
                  (String (JsNumber.digitChar (m mod 10)) "") k Hk) as Hlen.
    rewrite Hempty in Hlen. simpl in Hlen.
    assert (0 <= m / 10 < 10 ^ Z.of_nat k).
    { split; [apply Z.div_pos; lia|].
      apply Z.div_lt_upper_bound; [lia|].
      assert (0 < 10 ^ Z.of_nat k) by (apply Z.pow_pos_nonneg; lia). lia. }
    lia.
  - pose proof (digitsOf_length (S (Z.to_nat (Z.log2 m))) m "" k Hk Hm).
    simpl String.length in *. lia.
  - rewrite digitsOf_value; [reflexivity|].
    split; [lia | apply digits_fuel; lia].
Qed.

(** X5. Every 32-bit integer, written in decimal, is parsed back to
    itself by [tryParseInt]. *)
Theorem tryParseInt_toString (n : Z) :
  Util.INTEGER_32_MIN <= n <= Util.INTEGER_32_MAX ->
  Util.tryParseInt (JsNumber.toString n) = Some n.
Proof.
  unfold Util.INTEGER_32_MIN, Util.INTEGER_32_MAX. intros Hn.
  unfold Util.tryParseInt, Util.INTEGER_REGEXP_test, JsNumber.toString.
  destruct (Z.ltb_spec n 0) as [Hneg|Hpos].
  - destruct (digits_of_spec (- n) 10 ltac:(lia) ltac:(lia))
      as (Hdigits & Hne & Hlen & Hval).
    cbn [Util.stripMinus JsNumber.Number]. rewrite Hdigits, Hval.
    apply String.eqb_neq in Hne. rewrite Hne.
    pose proof (stripZeros_length
                  (JsNumber.digitsOf (S (Z.to_nat (Z.log2 (- n)))) (- n) "")).
    rewrite (proj2 (Nat.leb_le _ _)) by lia. cbn [negb andb].
    rewrite Z.opp_involutive.
    unfold Util.INTEGER_32_MIN, Util.INTEGER_32_MAX.
    rewrite (proj2 (Z.leb_le _ _)), (proj2 (Z.leb_le _ _)) by lia.
    reflexivity.
  - destruct (digits_of_spec n 10 ltac:(lia) ltac:(lia))
      as (Hdigits & Hne & Hlen & Hval).
    rewrite (stripMinus_digits _ Hdigits), (Number_digits _ Hdigits).
    rewrite Hdigits, Hval.
    apply String.eqb_neq in Hne. rewrite Hne.
    pose proof (stripZeros_length
                  (JsNumber.digitsOf (S (Z.to_nat (Z.log2 n))) n "")).
    rewrite (proj2 (Nat.leb_le _ _)) by lia. cbn [negb andb].
    unfold Util.INTEGER_32_MIN, Util.INTEGER_32_MAX.
    rewrite (proj2 (Z.leb_le _ _)), (proj2 (Z.leb_le _ _)) by lia.
    reflexivity.
Qed.

(** X4. [tryParseInt] returns [n] exactly when the string has the shape
    of an integer, [n] is its value, and [n] lies between
    [INTEGER_32_MIN] and [INTEGER_32_MAX]; otherwise it returns null. *)
Theorem tryParseInt_spec (str : string) (n : Z) :
  Util.tryParseInt str = Some n
  <-> Util.INTEGER_REGEXP_matches str
      /\ n = JsNumber.Number str
      /\ Util.INTEGER_32_MIN <= n <= Util.INTEGER_32_MAX.
Proof.
  rewrite <- INTEGER_REGEXP_test_matches. unfold Util.tryParseInt.
  destruct (Util.INTEGER_REGEXP_test str);
    [|split; [discriminate | intros (? & _); discriminate]].
  destruct (Z.leb_spec Util.INTEGER_32_MIN (JsNumber.Number str));
    destruct (Z.leb_spec (JsNumber.Number str) Util.INTEGER_32_MAX);
    cbn [andb]; split;
    try (intros [= <-]; repeat split; auto; lia);
    try discriminate;
    intros (_ & -> & ?); try reflexivity; lia.
Qed.

(** ** [nameCompare] *)

Lemma MIN_NAME_not_MAX_NAME : Util.MIN_NAME <> Util.MAX_NAME.
Proof. discriminate. Qed.

Lemma tryParseInt_MIN_NAME : Util.tryParseInt Util.MIN_NAME = None.
Proof. reflexivity. Qed.

Lemma tryParseInt_MAX_NAME : Util.tryParseInt Util.MAX_NAME = None.
Proof. reflexivity. Qed.

(** Case analysis on the four tests against the marker names. *)
Ltac markers a b :=
  destruct (bool_decide_reflect (a = Util.MIN_NAME));
  destruct (bool_decide_reflect (b = Util.MAX_NAME));
  destruct (bool_decide_reflect (b = Util.MIN_NAME));
  destruct (bool_decide_reflect (a = Util.MAX_NAME));
  cbn [orb].

(** X6. Swapping the arguments of [nameCompare] negates its result. *)
Theorem nameCompare_antisymmetric (a b : string) :
  Util.nameCompare b a = - Util.nameCompare a b.
Proof.
  unfold Util.nameCompare.
  destruct (decide (a = b)) as [->|Hab].
  - now rewrite decide_True.
  - rewrite (decide_False (P := b = a)) by congruence.
    pose proof MIN_NAME_not_MAX_NAME.
    markers a b; try lia; try congruence.
    destruct (Util.tryParseInt a) as [x|], (Util.tryParseInt b) as [y|];
      try lia.
    + destruct (Z.eqb_spec (x - y) 0), (Z.eqb_spec (y - x) 0); lia.
    + rewrite (string_ltb_total a b Hab).
      destruct (String.ltb a b); simpl; lia.
Qed.

(** X7. [nameCompare] returns 0 on equal names and, besides, on two
    different integer names of the same value and the same length
    (such as "-0" and "00"), and on nothing else. *)
Theorem nameCompare_zero (a b : string) :
  Util.nameCompare a b = 0
  <-> a = b
      \/ exists n : Z,
          Util.tryParseInt a = Some n /\ Util.tryParseInt b = Some n
          /\ String.length a = String.length b.
Proof.
  unfold Util.nameCompare.
  destruct (decide (a = b)) as [->|Hab]; [tauto|].
  pose proof tryParseInt_MIN_NAME. pose proof tryParseInt_MAX_NAME.
  markers a b;
    try (split; [lia | intros [?|(k & ? & ? & _)]; congruence]).
  destruct (Util.tryParseInt a) as [x|], (Util.tryParseInt b) as [y|];
    try (split; [lia | intros [?|(k & ? & ? & _)]; congruence]).
  - destruct (Z.eqb_spec (x - y) 0) as [Hxy|Hxy]; unfold JsString.length; split.
    + intros Hlen. right. exists x. repeat split; [f_equal; lia | lia].
    + intros [?|(k & _ & _ & Hlen)]; [congruence | lia].
    + lia.
    + intros [?|(k & [= ->] & [= ->] & _)]; [congruence | lia].
  - destruct (String.ltb a b);
      (split; [lia | intros [?|(k & ? & ? & _)]; congruence]).
Qed.

(** X8. [MIN_NAME] sorts before every other name and [MAX_NAME] after
    every other name. *)
Theorem nameCompare_extremes (a : string) :
  (a <> Util.MIN_NAME -> Util.nameCompare Util.MIN_NAME a = -1)
  /\ (a <> Util.MAX_NAME -> Util.nameCompare a Util.MAX_NAME = -1).
Proof.
  unfold Util.nameCompare. split; intros Ha.
  - rewrite decide_False by congruence.
    now rewrite (bool_decide_eq_true_2 (Util.MIN_NAME = Util.MIN_NAME)).
  - rewrite decide_False by congruence.
    rewrite (bool_decide_eq_true_2 (Util.MAX_NAME = Util.MAX_NAME)) by reflexivity.
    now rewrite orb_true_r.
Qed.

(** X9. An integer name sorts before every integer name of a larger
    value, and before every name that is not an integer, [MIN_NAME]
    excepted. *)
Theorem nameCompare_integers_first (a b : string) (x : Z) :
  Util.tryParseInt a = Some x ->
  (forall y, Util.tryParseInt b = Some y -> x < y -> Util.nameCompare a b < 0)
  /\ (Util.tryParseInt b = None -> b <> Util.MIN_NAME ->
      Util.nameCompare a b < 0).
Proof.
  intros Ha. unfold Util.nameCompare.
  pose proof tryParseInt_MIN_NAME. pose proof tryParseInt_MAX_NAME.
  split.
  - intros y Hb Hxy.
    destruct (decide (a = b)) as [->|_]; [rewrite Ha in Hb; inversion Hb; lia|].
    markers a b; try congruence.
    rewrite Ha, Hb. destruct (Z.eqb_spec (x - y) 0); lia.
  - intros Hb Hmin.
    destruct (decide (a = b)) as [->|_]; [congruence|].
    markers a b; try congruence; try lia.
    rewrite Ha, Hb. lia.
Qed.

(** X10. [nameCompare] is transitive: if it puts [a] before [b] and [b]
    before [c], it puts [a] before [c]. *)
Theorem nameCompare_transitive (a b c : string) :
  Util.nameCompare a b < 0 -> Util.nameCompare b c < 0 ->
  Util.nameCompare a c < 0.
Proof.
  pose proof MIN_NAME_not_MAX_NAME.
  pose proof tryParseInt_MIN_NAME. pose proof tryParseInt_MAX_NAME.
  destruct (decide (a = c)) as [<-|Hac].
  - (* [a] below [b] and [b] below [a]: impossible *)
    unfold Util.nameCompare.
    destruct (decide (a = b)) as [->|Hab]; [rewrite decide_True by done; lia|].
    rewrite (decide_False (P := b = a)) by congruence.
    markers a b; try lia; try congruence.
    destruct (Util.tryParseInt a) as [x|], (Util.tryParseInt b) as [y|];
      try lia.
    + destruct (Z.eqb_spec (x - y) 0), (Z.eqb_spec (y - x) 0);
        unfold JsString.length; lia.
    + rewrite (string_ltb_total a b Hab).
      destruct (String.ltb a b); simpl; lia.
  - unfold Util.nameCompare.
    rewrite (decide_False (P := a = c)) by exact Hac.
    destruct (decide (a = b)) as [->|Hab]; [lia|].
    destruct (decide (b = c)) as [->|Hbc]; [lia|].
    destruct (bool_decide_reflect (a = Util.MIN_NAME));
    destruct (bool_decide_reflect (b = Util.MAX_NAME));
    destruct (bool_decide_reflect (b = Util.MIN_NAME));
    destruct (bool_decide_reflect (a = Util.MAX_NAME));
    destruct (bool_decide_reflect (c = Util.MAX_NAME));
    destruct (bool_decide_reflect (c = Util.MIN_NAME));
    cbn [orb]; try lia; try congruence.
    destruct (Util.tryParseInt a) as [x|] eqn:Ha,
             (Util.tryParseInt b) as [y|] eqn:Hb,
             (Util.tryParseInt c) as [z|] eqn:Hc; try lia.
    + destruct (Z.eqb_spec (x - y) 0), (Z.eqb_spec (y - z) 0),
        (Z.eqb_spec (x - z) 0); unfold JsString.length; lia.
    + destruct (String.ltb a b) eqn:Hlab; [|lia].
      destruct (String.ltb b c) eqn:Hlbc; [|lia].
      rewrite (string_ltb_trans a b c Hlab Hlbc). lia.
Qed.

(** ** [splitStringBySize]: how many segments, and when it never ends *)

Lemma splitLoop_count (str : string) (segsize : Z) :
  1 <= segsize ->
  forall (fuel : nat) (c : Z) (dataSegs segs : list string),
    Util.splitLoop fuel str segsize (JsString.length str) c dataSegs
    = Some segs ->
    Z.of_nat (List.length segs)
    = Z.of_nat (List.length dataSegs)
      + Z.max 0 ((JsString.length str - c + segsize - 1) / segsize).
Proof.
  intros Hseg. induction fuel as [|fuel IH]; intros c dataSegs segs;
    cbn [Util.splitLoop];
    destruct (Z.ltb_spec c (JsString.length str)) as [Hlt|Hge];
    try discriminate.
  - intros [= <-].
    assert ((JsString.length str - c + segsize - 1) / segsize <= 0); [|lia].
    apply Z.lt_succ_r, Z.div_lt_upper_bound; lia.
  - intros Hrun. apply IH in Hrun. rewrite Hrun, length_app. simpl.
    replace (JsString.length str - c + segsize - 1)
      with ((JsString.length str - (c + segsize) + segsize - 1) + 1 * segsize)
      by lia.
    rewrite Z.div_add by lia.
    assert (0 <= (JsString.length str - (c + segsize) + segsize - 1) / segsize)
      by (apply Z.div_pos; lia).
    lia.
  - intros [= <-].
    assert ((JsString.length str - c + segsize - 1) / segsize <= 0); [|lia].
    apply Z.lt_succ_r, Z.div_lt_upper_bound; lia.
Qed.

(** X11. For [segsize >= 1], [splitStringBySize] returns the string's
    length divided by [segsize], rounded up, segments, and never
    fewer than one: the empty string gives one empty segment. *)
Theorem splitStringBySize_count (str : string) (segsize : Z) :
  1 <= segsize ->
  exists segs : list string,
    Util.splitStringBySize str segsize = Some segs
    /\ Z.of_nat (List.length segs)
       = Z.max 1 ((JsString.length str + segsize - 1) / segsize).
Proof.
  intros Hseg. unfold Util.splitStringBySize.
  destruct (Z.leb_spec (JsString.length str) segsize) as [Hshort|Hlong].
  - exists [str]. split; [reflexivity|]. simpl.
    assert ((JsString.length str + segsize - 1) / segsize <= 1); [|lia].
    apply Z.lt_succ_r, Z.div_lt_upper_bound; lia.
  - destruct (splitLoop_spec str segsize Hseg (String.length str) 0 [])
      as (segs & Hrun & _); [lia | unfold JsString.length; lia |].
    simpl in Hrun. exists segs. split; [exact Hrun|].
    rewrite (splitLoop_count str segsize Hseg _ _ _ _ Hrun). simpl.
    rewrite Z.sub_0_r.
    assert (1 <= (JsString.length str + segsize - 1) / segsize); [|lia].
    apply Z.div_le_lower_bound; lia.
Qed.

Lemma splitLoop_stuck (str : string) (segsize : Z) :
  segsize <= 0 -> 0 < JsString.length str ->
  forall (fuel : nat) (c : Z) (dataSegs : list string),
    c <= 0 ->
    Util.splitLoop fuel str segsize (JsString.length str) c dataSegs = None.
Proof.
  intros Hseg Hlen. induction fuel as [|fuel IH]; intros c dataSegs Hc;
    cbn [Util.splitLoop];
    destruct (Z.ltb_spec c (JsString.length str)); try lia; try reflexivity.
  apply IH. lia.
Qed.

(** X12. For [segsize <= 0] and a string that is not empty, the loop of
    [splitStringBySize] never ends: no bound on its iterations is
    enough. *)
Theorem splitStringBySize_never_ends (str : string) (segsize : Z) :
  segsize <= 0 -> str <> "" ->
  Util.splitStringBySize str segsize = None
  /\ forall fuel : nat,
      Util.splitLoop fuel str segsize (JsString.length str) 0 [] = None.
Proof.
  intros Hseg Hstr.
  assert (Hlen : 0 < JsString.length str).
  { unfold JsString.length. destruct str; [congruence | simpl; lia]. }
  split.
  - unfold Util.splitStringBySize.
    destruct (Z.leb_spec (JsString.length str) segsize); [lia|].
    now apply splitLoop_stuck.
  - intros fuel. now apply splitLoop_stuck.
Qed.

(** ** [LUIDGenerator] *)

Lemma LUIDs_seqZ (n : nat) :
  forall id : Z,
    id + Z.of_nat n - 1 <= 2 ^ 53 ->
    Util.LUIDs n id = seqZ id (Z.of_nat n).
Proof.
  induction n as [|n IH]; intros id Hid; [reflexivity|].
  cbn [Util.LUIDs Util.LUIDGenerator fst snd].
  rewrite Nat2Z.inj_succ, seqZ_cons by lia. f_equal.
  destruct n as [|n]; [reflexivity|].
  unfold JsNumber.increment.
  destruct (Z.ltb_spec id (2 ^ 53)); [|lia].
  rewrite IH by lia. f_equal; lia.
Qed.

(** X13. The first [n] calls of [LUIDGenerator] return 1, 2, ..., [n],
    all different, as long as [n] is at most [2^53]. *)
Theorem LUIDGenerator_unique (n : nat) :
  Z.of_nat n <= 2 ^ 53 ->
  Util.LUIDs n Util.LUID_initial = seqZ 1 (Z.of_nat n)
  /\ NoDup (Util.LUIDs n Util.LUID_initial).
Proof.
  intros Hn. unfold Util.LUID_initial.
  rewrite LUIDs_seqZ by lia. split; [reflexivity | apply NoDup_seqZ].
Qed.

(** At [2^53] the counter no longer moves. *)
Lemma LUIDGenerator_saturates (n : nat) :
  Util.LUIDs n (2 ^ 53) = replicate n (2 ^ 53).
Proof.
  induction n as [|n IH]; [reflexivity|].
  cbn [Util.LUIDs Util.LUIDGenerator fst snd replicate]. f_equal.
  exact IH.
Qed.

(** ** [ObjectToUniqueKey] *)

Lemma stringLe_compare (a b : string) :
  Util.stringLe a b <-> String.compare a b <> Gt.
Proof.
  unfold Util.stringLe, String.leb.
  destruct (String.compare a b); split; congruence.
Qed.

#[local] Instance stringLe_total : Total Util.stringLe.
Proof. intros a b. apply String.leb_total. Qed.

#[local] Instance stringLe_antisymm : AntiSymm (=) Util.stringLe.
Proof. intros a b. apply String.leb_antisym. Qed.

#[local] Instance stringLe_transitive : Transitive Util.stringLe.
Proof.
  intros a b c. rewrite !stringLe_compare.
  destruct (String.compare a b) eqn:Hab; [| |congruence].
  - apply String.compare_eq_iff in Hab. now subst.
  - destruct (String.compare b c) eqn:Hbc; [| |congruence].
    + apply String.compare_eq_iff in Hbc. subst. intros _ _. congruence.
    + intros _ _. rewrite (string_compare_lt_trans a b c Hab Hbc). congruence.
Qed.

(** Sorting forgets the order the keys came in. *)
Lemma sortKeys_permutation (keys keys' : list string) :
  keys ≡ₚ keys' -> Util.sortKeys keys = Util.sortKeys keys'.
Proof.
  intros Hperm. unfold Util.sortKeys.
  apply (Sorted_unique Util.stringLe); try apply Sorted_merge_sort; try apply _.
  now rewrite !merge_sort_Permutation.
Qed.

(** Reading a property does not depend on where it sits, as long as no
    name occurs twice. *)
Lemma keyOf_permutation (render : Util.Data -> string) (missing : string)
    (ps ps' : list (string * Util.Data)) :
  ps ≡ₚ ps' -> NoDup (map fst ps) ->
  forall k : string,
    (fix keyOf (ps : list (string * Util.Data)) (k : string) : string :=
       match ps with
       | [] => missing
       | (k', v) :: rest =>
           if String.eqb k' k then render v else keyOf rest k
       end) ps k
    = (fix keyOf (ps : list (string * Util.Data)) (k : string) : string :=
         match ps with
         | [] => missing
         | (k', v) :: rest =>
             if String.eqb k' k then render v else keyOf rest k
         end) ps' k.
Proof.
  induction 1 as [|[k1 v1] l l' Hperm IH|[k1 v1] [k2 v2] l|l l' l'' H1 IH1 H2 IH2];
    intros Hnodup k.
  - reflexivity.
  - cbn in Hnodup. apply NoDup_cons in Hnodup as [_ Hnodup].
    destruct (String.eqb k1 k); [reflexivity | now apply IH].
  - cbn in Hnodup. apply NoDup_cons in Hnodup as [Hnotin _].
    destruct (String.eqb_spec k1 k) as [->|_];
      destruct (String.eqb_spec k2 k) as [->|_]; try reflexivity.
    exfalso. apply Hnotin. now left.
  - rewrite IH1 by exact Hnodup. apply IH2.
    apply (NoDup_Permutation_proper _ _ (fmap_Permutation fst _ _ H1)). exact Hnodup.
Qed.

(** X14. [ObjectToUniqueKey] gives the same key for two objects that
    hold the same properties in a different order. *)
Theorem ObjectToUniqueKey_order_independent
    (stringify : Util.Primitive -> string)
    (props props' : list (string * Util.Data)) :
  props ≡ₚ props' -> NoDup (map fst props) ->
  Util.ObjectToUniqueKey stringify (Util.Obj props)
  = Util.ObjectToUniqueKey stringify (Util.Obj props').
Proof.
  intros Hperm Hnodup. cbn [Util.ObjectToUniqueKey].
  rewrite <- (sortKeys_permutation (map fst props) (map fst props'))
    by now apply fmap_Permutation.
  do 3 f_equal. apply map_ext. intros k. do 2 f_equal.
  now apply (keyOf_permutation (Util.ObjectToUniqueKey stringify)).
Qed.

Lemma ObjectToUniqueKey_order_independent_witness :
  Util.ObjectToUniqueKey (fun _ => "p")
    (Util.Obj [("b", Util.Plain Util.PNull); ("a", Util.Plain Util.PNull)])
  = Util.ObjectToUniqueKey (fun _ => "p")
      (Util.Obj [("a", Util.Plain Util.PNull); ("b", Util.Plain Util.PNull)]).
Proof.
  apply ObjectToUniqueKey_order_independent.
  - apply perm_swap.
  - cbn [map fst]. refine (bool_decide_unpack (NoDup _) _). vm_compute. exact I.
Defined.

(** ** [BrowserPersistence]: the availability probe, and keys apart *)

Section MorePersistenceFacts.
Context {host : Persistence.Host}.

Lemma get_Some (key : string) (items : gmap string string) :
  Persistence.get key (Some items)
  = match items !! key with
    | None => Persistence.Fulfilled Persistence.null
    | Some json =>
        if decide (json = "") then Persistence.Fulfilled Persistence.null
        else Persistence.parsed json
    end.
Proof. reflexivity. Qed.

(** X15. [isAvailable] always resolves; it resolves with [true] exactly
    when there is a storage object and the probe item fits its quota;
    it leaves every other key as it was, and after a successful probe
    the probe key itself is gone, whatever was stored under it. *)
Theorem isAvailable_probe (storage : Persistence.Store) :
  exists (available : bool) (storage' : Persistence.Store),
    Persistence.isAvailable storage
    = (Persistence.Fulfilled available, storage')
    /\ (available = true
        <-> exists items,
            storage = Some items
            /\ Persistence.quotaExceeded items
                 Persistence._STORAGE_AVAILABLE_KEY "1" = false)
    /\ (forall key,
          key <> Persistence._STORAGE_AVAILABLE_KEY ->
          Persistence.get key storage' = Persistence.get key storage)
    /\ (available = true ->
        Persistence.get Persistence._STORAGE_AVAILABLE_KEY storage'
        = Persistence.Fulfilled Persistence.null)
    /\ (available = false -> storage' = storage).
Proof.
  unfold Persistence.isAvailable, Persistence.setItem.
  destruct storage as [items|].
  - destruct (Persistence.quotaExceeded items _ _) eqn:Hquota.
    + exists false, (Some items). repeat split; try discriminate.
      intros (items' & [= <-] & Hfree). congruence.
    + exists true, (Some (Persistence.removeItem
                            Persistence._STORAGE_AVAILABLE_KEY
                            (<[Persistence._STORAGE_AVAILABLE_KEY := "1"]>
                               items))).
      repeat split; try discriminate; eauto.
      * intros key Hkey. rewrite !get_Some. unfold Persistence.removeItem.
        rewrite lookup_delete_ne, lookup_insert_ne by congruence.
        reflexivity.
      * intros _. rewrite get_Some. unfold Persistence.removeItem.
        now rewrite lookup_delete_eq.
  - exists false, None. repeat split; try discriminate.
    intros (items & [=] & _).
Qed.

(** X16. [set] and [remove] leave what [get] returns for every other
    key unchanged, and a [set] that rejects changes nothing at all. *)
Theorem set_remove_keep_other_keys (key other : string)
    (storage : Persistence.Store) :
  other <> key ->
  (forall value,
      Persistence.get other (snd (Persistence.set key value storage))
      = Persistence.get other storage)
  /\ Persistence.get other (snd (Persistence.remove key storage))
     = Persistence.get other storage
  /\ (forall value e,
         fst (Persistence.set key value storage) = Persistence.Rejected e ->
         snd (Persistence.set key value storage) = storage).
Proof.
  intros Hother. unfold Persistence.set, Persistence.remove,
    Persistence.setItem, Persistence.removeItem.
  destruct storage as [items|]; [|repeat split; reflexivity].
  repeat split.
  - intros value. destruct (Persistence.quotaExceeded items key _);
      [reflexivity|]. cbn [snd]. rewrite !get_Some.
    now rewrite lookup_insert_ne by congruence.
  - cbn [snd]. rewrite !get_Some. now rewrite lookup_delete_ne by congruence.
  - intros value e. destruct (Persistence.quotaExceeded items key _);
      [reflexivity | discriminate].
Qed.

End MorePersistenceFacts.

Lemma isAvailable_probe_witness :
  Persistence.get (host := Persistence.QuotedStrings.host 100)
    Persistence._STORAGE_AVAILABLE_KEY
    (snd (Persistence.isAvailable
            (host := Persistence.QuotedStrings.host 100)
            (Some {[Persistence._STORAGE_AVAILABLE_KEY :=
                      Persistence.QuotedStrings.stringify (Some "kept?")]})))
  = Persistence.Fulfilled None.
Proof.
  destruct (isAvailable_probe (host := Persistence.QuotedStrings.host 100)
              (Some {[Persistence._STORAGE_AVAILABLE_KEY :=
                        Persistence.QuotedStrings.stringify (Some "kept?")]}))
    as (available & storage' & Hrun & _ & _ & Hgone & _).
  rewrite Hrun. cbn [snd]. apply Hgone.
  vm_compute in Hrun. now inversion Hrun.
Defined.

Lemma set_remove_keep_other_keys_witness :
  Persistence.get (host := Persistence.QuotedStrings.host 100) "b"
    (snd (Persistence.remove "a"
            (Some {["b" := Persistence.QuotedStrings.stringify (Some "x")]})))
  = Persistence.get (host := Persistence.QuotedStrings.host 100) "b"
      (Some {["b" := Persistence.QuotedStrings.stringify (Some "x")]}).
Proof.
  apply (set_remove_keep_other_keys (host := Persistence.QuotedStrings.host 100)
           "a" "b").
  discriminate.
Defined.

(** ** [listAll]: failure, and what a result stands for *)

Section MoreListAllFacts.
Context {env : Storage.Env} {collaborators : Storage.Collaborators}.

Lemma tokenAfter_cons (pageToken : Js.Opt string) (page : Storage.ListResult)
    (pages : list Storage.ListResult) :
  Storage.tokenAfter pageToken (page :: pages)
  = Storage.tokenAfter (Storage.nextPageToken page) pages.
Proof.
  unfold Storage.tokenAfter. rewrite reverse_cons.
  destruct (reverse pages); reflexivity.
Qed.

Lemma listAllHelper_fails (ref : Storage.Reference)
    (pageToken : Js.Opt string) (n : Storage.Net)
    (pages : list Storage.ListResult) (e : Storage.StorageError)
    (n' : Storage.Net) :
  Storage.FailsAfter ref pageToken n pages e n' ->
  forall (fuel : nat) (accumulator : Storage.ListResult) (w : Storage.World),
    Storage.net w = n ->
    (List.length pages < fuel)%nat ->
    Storage.listAllHelper fuel ref accumulator pageToken w
    = Some (Storage.Rejected e,
            foldl Storage.pushPage accumulator pages,
            {| Storage.net := n';
               Storage.trace :=
                 Storage.trace w ++ Storage.pagesTrace ref pageToken pages
                 ++ Storage.listRequest ref
                      (Storage.tokenAfter pageToken pages);
               Storage.pending := Storage.pending w;
               Storage.peak :=
                 Nat.max (Storage.peak w)
                         (Storage.pending w + S (List.length pages)) |}).
Proof.
  induction 1 as [tok n e n' Hreq
                 |tok n page token n' pages e n'' Hreq Htoken Hrest IH];
    intros [|fuel] accumulator w Hnet Hfuel; simpl in Hfuel; try lia;
    cbn [Storage.listAllHelper]; rewrite list_page;
    cbn [Storage.net Storage.enter]; rewrite Hnet, Hreq;
    cbn [fst snd].
  - cbn. do 2 f_equal. apply World_eq;
      unfold Storage.leave, Storage.tokenAfter; cbn;
      first [reflexivity | lia].
  - rewrite Htoken.
    rewrite (IH fuel (Storage.pushPage accumulator page))
      by (unfold Storage.emitEvent; cbn; reflexivity || lia).
    cbn. rewrite Htoken, tokenAfter_cons, Htoken. do 2 f_equal.
    apply World_eq; unfold Storage.leave, Storage.emitEvent; cbn;
      first [reflexivity | now rewrite <- !app_assoc | lia].
Qed.

(** X17. When the network serves some pages, each with a token, and
    then fails a request, [listAll] rejects with that very error, and
    the failed request is the last event: nothing is requested after
    it. *)
Theorem listAll_rejects_with_first_error (ref : Storage.Reference)
    (pages : list Storage.ListResult) (e : Storage.StorageError)
    (w : Storage.World) (n' : Storage.Net) (fuel : nat) :
  Storage.FailsAfter ref Js.Undefined (Storage.net w) pages e n' ->
  (List.length pages < fuel)%nat ->
  exists w',
    Storage.listAll fuel ref w = Some (Storage.Rejected e, w')
    /\ Storage.net w' = n'
    /\ Storage.trace w'
       = Storage.trace w ++ Storage.pagesTrace ref Js.Undefined pages
         ++ Storage.listRequest ref (Storage.tokenAfter Js.Undefined pages).
Proof.
  intros Hfails Hfuel. unfold Storage.listAll.
  rewrite (listAllHelper_fails ref _ _ _ _ _ Hfails fuel _ w eq_refl Hfuel).
  cbn. eauto.
Qed.

Lemma listAllHelper_outcome (ref : Storage.Reference) :
  forall (fuel : nat) (accumulator : Storage.ListResult)
         (pageToken : Js.Opt string) (w : Storage.World)
         (p : Storage.Promise unit) (accumulator' : Storage.ListResult)
         (w' : Storage.World),
    Storage.listAllHelper fuel ref accumulator pageToken w
    = Some (p, accumulator', w') ->
    exists pages,
      accumulator' = foldl Storage.pushPage accumulator pages
      /\ match p with
         | Storage.Fulfilled _ =>
             Storage.Serves ref pageToken (Storage.net w) pages
               (Storage.net w')
         | Storage.Rejected e =>
             Storage.FailsAfter ref pageToken (Storage.net w) pages e
               (Storage.net w')
         end.
Proof.
  induction fuel as [|fuel IH]; intros accumulator tok w p acc' w' Hrun;
    [discriminate|].
  cbn [Storage.listAllHelper] in Hrun. rewrite list_page in Hrun.
  cbn [Storage.net Storage.enter] in Hrun.
  destruct (Storage.makeRequestWithTokens _ _ _ _ _) as [[page|e] n] eqn:Hreq;
    cbn [fst snd] in Hrun.
  - destruct (Storage.nextPageToken page) as [| |token] eqn:Htoken.
    1,2: inversion Hrun; subst; exists [page];
      (split; [reflexivity|]); cbn;
      apply Storage.serves_last; [exact Hreq | now rewrite Htoken].
    destruct (Storage.listAllHelper fuel ref _ _ _)
      as [[[q acc1] w1]|] eqn:Hinner; [|discriminate].
    inversion Hrun; subst.
    destruct (IH _ _ _ _ _ _ Hinner) as (pages & Hacc & Hshape).
    exists (page :: pages). split; [exact Hacc|].
    cbn in Hshape |- *. destruct p.
    + eapply Storage.serves_next; eauto.
    + eapply Storage.fails_later; eauto.
  - inversion Hrun; subst. exists []. split; [reflexivity|].
    cbn. now apply Storage.fails_now.
Qed.

(** X18. Whatever the network, a [listAll] that resolves has been served
    a complete chain of pages and resolves with their concatenation;
    one that rejects has been served a chain of pages followed by a
    failed request, and rejects with the error of that request. *)
Theorem listAll_outcome (fuel : nat) (ref : Storage.Reference)
    (w : Storage.World) (p : Storage.Promise Storage.ListResult)
    (w' : Storage.World) :
  Storage.listAll fuel ref w = Some (p, w') ->
  exists pages,
    match p with
    | Storage.Fulfilled result =>
        Storage.Serves ref Js.Undefined (Storage.net w) pages (Storage.net w')
        /\ result
           = {| Storage.prefixes := concat (map Storage.prefixes pages);
                Storage.items := concat (map Storage.items pages);
                Storage.nextPageToken := Js.Undefined |}
    | Storage.Rejected e =>
        Storage.FailsAfter ref Js.Undefined (Storage.net w) pages e
          (Storage.net w')
    end.
Proof.
  unfold Storage.listAll. intros Hrun.
  destruct (Storage.listAllHelper fuel ref _ _ w)
    as [[[q accumulator] w1]|] eqn:Hhelper; [|discriminate].
  inversion Hrun; subst.
  destruct (listAllHelper_outcome ref _ _ _ _ _ _ _ Hhelper)
    as (pages & Hacc & Hshape).
  exists pages. destruct q as [[]|e]; cbn.
  - split; [exact Hshape|]. rewrite Hacc, foldl_pushPage. reflexivity.
  - exact Hshape.
Qed.

(** ** [uploadString] and [root] *)

(** X19. On an object reference, [uploadString] throws what
    [dataFromString] throws before anything is requested; otherwise it
    uploads the decoded data with the caller's metadata, in which
    [contentType] is the caller's when that is set and not null, and
    else the one of the data when it has one. *)
Theorem uploadString_contentType (ref : Storage.Reference) (value : string)
    (format : option Storage.StringFormat)
    (metadata : Js.Opt (gmap string Js.Value)) (w : Storage.World) :
  Storage.path (Storage._location ref) <> "" ->
  (forall e,
      Storage.dataFromString (default Storage.RAW format) value
      = Storage.Thrown e ->
      Storage.uploadString ref value format metadata w = (Storage.Thrown e, w))
  /\ (forall stringData,
      Storage.dataFromString (default Storage.RAW format) value
      = Storage.Returned stringData ->
      let given :=
        match metadata with Js.Defined m => m | _ => ∅ end in
      exists sent : gmap string Js.Value,
        Storage.uploadString ref value format metadata w
        = Storage.uploadBytes ref (Storage.data stringData)
            (Js.Defined sent) w
        /\ (forall key, key <> "contentType" -> sent !! key = given !! key)
        /\ sent !! "contentType"
           = match given !! "contentType",
                   Storage.contentType stringData with
             | Some v, Js.Defined ct =>
                 if Js.valueIsNullish v then Some (Js.VString ct) else Some v
             | None, Js.Defined ct => Some (Js.VString ct)
             | given_type, _ => given_type
             end).
Proof.
  intros Hobject.
  assert (Hguard : forall k : unit -> Storage.M (Storage.Promise
                                                   Storage.UploadResult),
             Storage.bind (Storage._throwIfRoot ref "uploadString") k w
             = k tt w).
  { intros k. apply bind_returned. now apply throwIfRoot_object. }
  split.
  - intros e Hdata. unfold Storage.uploadString. rewrite Hguard.
    unfold Storage.bind. now rewrite Hdata.
  - intros stringData Hdata given. unfold Storage.uploadString.
    rewrite Hguard. unfold Storage.bind. rewrite Hdata. fold given.
    destruct (given !! "contentType") as [v|] eqn:Hgiven;
      destruct (Storage.contentType stringData) as [| |ct];
      try (exists given; repeat split; auto; fail).
    + destruct (Js.valueIsNullish v) eqn:Hnull.
      * exists (<["contentType" := Js.VString ct]> given).
        repeat split.
        -- intros key Hkey. now rewrite lookup_insert_ne by congruence.
        -- apply lookup_insert_eq.
      * exists given. repeat split; auto.
    + exists (<["contentType" := Js.VString ct]> given).
      repeat split.
      * intros key Hkey. now rewrite lookup_insert_ne by congruence.
      * apply lookup_insert_eq.
Qed.

(** X20. The root of any reference is its own root, prints as
    "gs://bucket/", and every operation that does not accept a root
    reference throws on it, leaving the world as it was. *)
Theorem root_rejects_object_operations (ref : Storage.Reference)
    (w : Storage.World) :
  Storage.root (Storage.root ref) = Storage.root ref
  /\ Storage.toString (Storage.root ref)
     = String.append "gs://"
         (String.append (Storage.bucket (Storage._location ref)) "/")
  /\ (forall data metadata,
      Storage.uploadBytes (Storage.root ref) data metadata w
      = (Storage.Thrown (Storage.invalidRootOperation "uploadBytes"), w))
  /\ (forall data metadata,
      Storage.uploadBytesResumable (Storage.root ref) data metadata w
      = (Storage.Thrown
           (Storage.invalidRootOperation "uploadBytesResumable"), w))
  /\ (forall value format metadata,
      Storage.uploadString (Storage.root ref) value format metadata w
      = (Storage.Thrown (Storage.invalidRootOperation "uploadString"), w))
  /\ Storage.getMetadata (Storage.root ref) w
     = (Storage.Thrown (Storage.invalidRootOperation "getMetadata"), w)
  /\ (forall metadata,
      Storage.updateMetadata (Storage.root ref) metadata w
      = (Storage.Thrown (Storage.invalidRootOperation "updateMetadata"), w))
  /\ Storage.getDownloadURL (Storage.root ref) w
     = (Storage.Thrown (Storage.invalidRootOperation "getDownloadURL"), w)
  /\ Storage.deleteObject (Storage.root ref) w
     = (Storage.Thrown (Storage.invalidRootOperation "deleteObject"), w).
Proof.
  split; [reflexivity|]. split.
  - unfold Storage.toString. cbn. now rewrite append_empty_r.
  - repeat split; intros;
      apply bind_thrown; now apply throwIfRoot_root.
Qed.

End MoreListAllFacts.

(** ** The properties above, at work *)

#[local] Existing Instances Scripted.env Scripted.collaborators.

Lemma stringCompare_transitive_witness :
  Util.stringCompare "a" "ab" < 0 /\ Util.stringCompare "ab" "b" < 0
  /\ Util.stringCompare "a" "b" < 0.
Proof.
  assert (H1 : Util.stringCompare "a" "ab" < 0) by (vm_compute; reflexivity).
  assert (H2 : Util.stringCompare "ab" "b" < 0) by (vm_compute; reflexivity).
  split; [exact H1|]. split; [exact H2|].
  exact (stringCompare_transitive "a" "ab" "b" H1 H2).
Defined.

Lemma tryParseInt_toString_witness :
  Util.tryParseInt (JsNumber.toString (-2147483648)) = Some (-2147483648).
Proof. apply tryParseInt_toString. vm_compute. split; discriminate. Defined.

Lemma nameCompare_extremes_witness :
  Util.nameCompare Util.MIN_NAME "0" = -1
  /\ Util.nameCompare "zzz" Util.MAX_NAME = -1.
Proof.
  split.
  - apply (proj1 (nameCompare_extremes "0")). discriminate.
  - apply (proj2 (nameCompare_extremes "zzz")). discriminate.
Defined.

Lemma nameCompare_integers_first_witness :
  Util.nameCompare "9" "10" < 0 /\ Util.nameCompare "10" "1a" < 0.
Proof.
  split.
  - apply (proj1 (nameCompare_integers_first "9" "10" 9 eq_refl) 10);
      [reflexivity | lia].
  - apply (proj2 (nameCompare_integers_first "10" "1a" 10 eq_refl));
      [reflexivity | discriminate].
Defined.

Lemma nameCompare_transitive_witness : Util.nameCompare "-5" "abc" < 0.
Proof.
  apply (nameCompare_transitive "-5" "7" "abc"); vm_compute; reflexivity.
Defined.

Lemma splitStringBySize_count_witness :
  exists segs : list string,
    Util.splitStringBySize "abcdefg" 3 = Some segs
    /\ Z.of_nat (List.length segs)
       = Z.max 1 ((JsString.length "abcdefg" + 3 - 1) / 3).
Proof. apply (splitStringBySize_count "abcdefg" 3). lia. Defined.

Lemma splitStringBySize_never_ends_witness :
  Util.splitStringBySize "ab" 0 = None
  /\ forall fuel : nat,
      Util.splitLoop fuel "ab" 0 (JsString.length "ab") 0 [] = None.
Proof.
  apply (splitStringBySize_never_ends "ab" 0); [lia | discriminate].
Defined.

Lemma LUIDGenerator_unique_witness :
  Util.LUIDs 5 Util.LUID_initial = seqZ 1 (Z.of_nat 5)
  /\ NoDup (Util.LUIDs 5 Util.LUID_initial).
Proof. apply (LUIDGenerator_unique 5). vm_compute. discriminate. Defined.

Lemma listAll_rejects_with_first_error_witness :
  exists w',
    Storage.listAll 2 (Scripted.objectRef "")
      (Scripted.world
         [Scripted.PageResponse
            {| Scripted.rawPrefixes := []; Scripted.rawItems := ["item"];
               Scripted.rawToken := Js.Defined "next" |};
          Scripted.FailureResponse (Storage.otherError "unavailable")])
    = Some (Storage.Rejected (Storage.otherError "unavailable"), w')
    /\ Storage.net w' = []
    /\ Storage.trace w'
       = [] ++ Storage.pagesTrace (Scripted.objectRef "") Js.Undefined
                 [Scripted.decodePage
                    (Storage._location (Scripted.objectRef ""))
                    {| Scripted.rawPrefixes := [];
                       Scripted.rawItems := ["item"];
                       Scripted.rawToken := Js.Defined "next" |}]
         ++ Storage.listRequest (Scripted.objectRef "") (Js.Defined "next").
Proof.
  apply (listAll_rejects_with_first_error (Scripted.objectRef "")
           [Scripted.decodePage
              (Storage._location (Scripted.objectRef ""))
              {| Scripted.rawPrefixes := []; Scripted.rawItems := ["item"];
                 Scripted.rawToken := Js.Defined "next" |}]
           (Storage.otherError "unavailable")
           (Scripted.world
              [Scripted.PageResponse
                 {| Scripted.rawPrefixes := []; Scripted.rawItems := ["item"];
                    Scripted.rawToken := Js.Defined "next" |};
               Scripted.FailureResponse (Storage.otherError "unavailable")])
           ([] : list Scripted.Response) 2).
  - eapply Storage.fails_later; [reflexivity | reflexivity |].
    apply Storage.fails_now. reflexivity.
  - simpl. lia.
Defined.

Lemma listAll_outcome_witness :
  exists pages,
    Storage.Serves (Scripted.objectRef "") Js.Undefined
      (map Scripted.PageResponse (Scripted.listing 0)) pages
      (Storage.net (Scripted.world []))
    /\ {| Storage.prefixes := [];
          Storage.items := [Scripted.objectRef "last"];
          Storage.nextPageToken := Js.Undefined |}
       = {| Storage.prefixes := concat (map Storage.prefixes pages);
            Storage.items := concat (map Storage.items pages);
            Storage.nextPageToken := Js.Undefined |}.
Proof.
  apply (listAll_outcome 1 (Scripted.objectRef "")
           (Scripted.world (map Scripted.PageResponse (Scripted.listing 0)))
           (Storage.Fulfilled
              {| Storage.prefixes := [];
                 Storage.items := [Scripted.objectRef "last"];
                 Storage.nextPageToken := Js.Undefined |})
           (Storage.emitEvent
              (Storage.PageReceived
                 {| Storage.prefixes := [];
                    Storage.items := [Scripted.objectRef "last"];
                    Storage.nextPageToken := Js.Undefined |})
              {| Storage.net := Storage.net (Scripted.world []);
                 Storage.trace :=
                   Storage.listRequest (Scripted.objectRef "") Js.Undefined;
                 Storage.pending := 0%nat;
                 Storage.peak := 1%nat |})).
  reflexivity.
Defined.

Lemma uploadString_contentType_witness :
  exists sent : gmap string Js.Value,
    Storage.uploadString (Scripted.objectRef "a") "text" None
      (Js.Defined {["contentType" := Js.VString "text/plain"]})
      (Scripted.world [])
    = Storage.uploadBytes (Scripted.objectRef "a")
        (tt : @Storage.UploadData Scripted.env) (Js.Defined sent)
        (Scripted.world [])
    /\ (forall key, key <> "contentType" ->
        sent !! key
        = ({["contentType" := Js.VString "text/plain"]}
             : gmap string Js.Value) !! key)
    /\ sent !! "contentType" = Some (Js.VString "text/plain").
Proof.
  apply (proj2 (uploadString_contentType (Scripted.objectRef "a") "text" None
                  (Js.Defined {["contentType" := Js.VString "text/plain"]})
                  (Scripted.world []) ltac:(discriminate))
           {| Storage.data := (tt : @Storage.UploadData Scripted.env);
              Storage.contentType := Js.Undefined |}).
  reflexivity.
Defined.

(** Two different names that [nameCompare] does not tell apart. *)
Example nameCompare_minus_zero :
  Util.nameCompare "-0" "00" = 0 /\ Util.nameCompare "00" "-0" = 0.
Proof. split; reflexivity. Qed.

(** Leading zeros do not count towards the ten digits; an eleventh
    significant digit, a plus sign and a bare minus sign are refused. *)
Example tryParseInt_edges :
  Util.tryParseInt "00000000000000000001" = Some 1
  /\ Util.tryParseInt "2147483647" = Some 2147483647
  /\ Util.tryParseInt "2147483648" = None
  /\ Util.tryParseInt "12345678901" = None
  /\ Util.tryParseInt "+1" = None
  /\ Util.tryParseInt "-" = None
  /\ Util.tryParseInt "" = None.
Proof. repeat split; reflexivity. Qed.

(** Array indices are sorted as strings: "10" comes before "9". *)
Example ObjectToUniqueKey_sorts_as_strings :
  Util.sortKeys ["9"; "10"; "b"; "a"] = ["10"; "9"; "a"; "b"].
Proof. reflexivity. Qed.

(** ** More on names and keys *)


(** X21. On names that are neither integers nor the two markers,
    [nameCompare] is [stringCompare]. *)
Theorem nameCompare_plain_names (a b : string) :
  Util.tryParseInt a = None -> Util.tryParseInt b = None ->
  a <> Util.MIN_NAME -> a <> Util.MAX_NAME ->
  b <> Util.MIN_NAME -> b <> Util.MAX_NAME ->
  Util.nameCompare a b = Util.stringCompare a b.
Proof.
  intros Ha Hb Hamin Hamax Hbmin Hbmax.
  unfold Util.nameCompare, Util.stringCompare.
  destruct (decide (a = b)); [reflexivity|].
  markers a b; try contradiction.
  now rewrite Ha, Hb.
Qed.

Lemma nameCompare_plain_names_witness :
  Util.nameCompare "apple" "pear" = Util.stringCompare "apple" "pear".
Proof.
  apply nameCompare_plain_names; (reflexivity || discriminate).
Defined.

(** X22. A leading zero in front of a run of digits does not change
    what [tryParseInt] returns. *)
Theorem tryParseInt_leading_zero (digits : string) :
  Util.allDigits digits = true -> digits <> "" ->
  Util.tryParseInt (String "0" digits) = Util.tryParseInt digits.
Proof.
  intros Hdigits Hne.
  unfold Util.tryParseInt, Util.INTEGER_REGEXP_test.
  rewrite (stripMinus_digits digits Hdigits).
  rewrite (Number_digits digits Hdigits).
  cbn [Util.stripMinus Util.stripZeros Util.allDigits JsNumber.Number
         JsNumber.digitsValue].
  apply String.eqb_neq in Hne. rewrite Hne, Hdigits.
  reflexivity.
Qed.

Lemma tryParseInt_leading_zero_witness :
  Util.tryParseInt "007" = Util.tryParseInt "07".
Proof. apply tryParseInt_leading_zero; [reflexivity | discriminate]. Defined.

Lemma keyOf_pointwise (render : Util.Data -> string) (missing : string)
    (ps qs : list (string * Util.Data)) :
  Forall2 (fun x y => fst x = fst y /\ render (snd x) = render (snd y)) ps qs ->
  forall k : string,
    (fix keyOf (ps : list (string * Util.Data)) (k : string) : string :=
       match ps with
       | [] => missing
       | (k', v) :: rest =>
           if String.eqb k' k then render v else keyOf rest k
       end) ps k
    = (fix keyOf (ps : list (string * Util.Data)) (k : string) : string :=
         match ps with
         | [] => missing
         | (k', v) :: rest =>
             if String.eqb k' k then render v else keyOf rest k
         end) qs k.
Proof.
  induction 1 as [|[k1 v1] [k2 v2] ps qs [Hk Hv] _ IH]; intros k;
    [reflexivity|].
  cbn in Hk, Hv. subst k2. rewrite Hv, IH. reflexivity.
Qed.

Lemma Forall2_same_names (R : Util.Data -> Util.Data -> Prop)
    (ps qs : list (string * Util.Data)) :
  Forall2 (fun x y => fst x = fst y /\ R (snd x) (snd y)) ps qs ->
  map fst ps = map fst qs.
Proof.
  induction 1 as [|x y ps qs [Hk _] _ IH]; [reflexivity|].
  cbn. now rewrite Hk, IH.
Qed.

Lemma ObjectToUniqueKey_same_sized (stringify : Util.Primitive -> string)
    (n : nat) :
  forall d d' : Util.Data,
    (Util.size d <= n)%nat -> Util.SameData d d' -> Util.distinctNames d ->
    Util.ObjectToUniqueKey stringify d = Util.ObjectToUniqueKey stringify d'.
Proof.
  induction n as [|n IH]; intros d d' Hsize Hsame Hnames.
  - destruct d; simpl in Hsize; lia.
  - destruct Hsame as [p | props rearranged props' Hprops Hperm];
      [reflexivity|].
    destruct Hnames as [Hnodup Heach]. cbn [Util.size] in Hsize.
    assert (Hrender :
      Forall2 (fun x y =>
                 fst x = fst y
                 /\ Util.ObjectToUniqueKey stringify (snd x)
                    = Util.ObjectToUniqueKey stringify (snd y))
              props rearranged).
    { apply le_S_n in Hsize. clear Hnodup Hperm.
      induction Hprops as [|[k v] [k' v'] ps qs [Hk Hv] _ IHprops];
        constructor.
      - split; [exact Hk|]. cbn in Hv |- *.
        apply IH; [lia | exact Hv | apply Heach].
      - apply IHprops; [lia | apply Heach]. }
    pose proof (Forall2_same_names _ _ _ Hprops) as Hkeys.
    cbn [Util.ObjectToUniqueKey].
    rewrite <- (sortKeys_permutation (map fst rearranged) (map fst props'))
      by now apply fmap_Permutation.
    rewrite <- Hkeys.
    do 3 f_equal. apply map_ext. intros k. do 2 f_equal.
    rewrite (keyOf_pointwise (Util.ObjectToUniqueKey stringify) _ _ _ Hrender).
    apply (keyOf_permutation (Util.ObjectToUniqueKey stringify)); [exact Hperm|].
    now rewrite <- Hkeys.
Qed.

(** X23. [ObjectToUniqueKey] gives the same key for the same data up to
    the order of properties at every depth, when no object holds two
    properties of one name. *)
Theorem ObjectToUniqueKey_same_data (stringify : Util.Primitive -> string)
    (d d' : Util.Data) :
  Util.SameData d d' -> Util.distinctNames d ->
  Util.ObjectToUniqueKey stringify d = Util.ObjectToUniqueKey stringify d'.
Proof. now apply (ObjectToUniqueKey_same_sized stringify (Util.size d)). Qed.

Lemma ObjectToUniqueKey_same_data_witness :
  Util.ObjectToUniqueKey (fun _ => "p")
    (Util.Obj [("x", Util.Obj [("b", Util.Plain Util.PNull);
                               ("a", Util.Plain (Util.PNumber 1))]);
               ("y", Util.Plain Util.PNull)])
  = Util.ObjectToUniqueKey (fun _ => "p")
      (Util.Obj [("y", Util.Plain Util.PNull);
                 ("x", Util.Obj [("a", Util.Plain (Util.PNumber 1));
                                 ("b", Util.Plain Util.PNull)])]).
Proof.
  apply ObjectToUniqueKey_same_data.
  - eapply Util.same_obj; [|apply perm_swap].
    repeat constructor; cbn.
    eapply Util.same_obj; [|apply perm_swap].
    repeat constructor.
  - cbn. repeat split;
      try (refine (bool_decide_unpack (NoDup _) _); vm_compute; exact I).
Defined.
